(** * SizeSync: the fit scoring of the recommendations page

    A shallow embedding of the fit-scoring code of the recommendations page
    (the component [Recommendations] and its helpers): [calculateFitStatus],
    the table [FABRIC_EASE_CONFIGS], the loop that builds
    [measurementComparisons], [deriveActualConfidence], and the
    size-comparison view with its [fitDetails], [overallFit] and range
    text; and of the number field [NumberInput] of the profile form.

    Modelling choices.
    - A JavaScript number is [NaN], an infinity, or a finite binary64 value.
      A finite value is written [Finite q] with a rational q and is the
      finite binary64 value nearest to q, so that a decimal of the source,
      such as 0.95, is written as it stands.  Differences and products are
      rounded to nearest, ties to even, and overflow to an infinity;
      comparisons, [Math.floor], [Math.ceil] and [toFixed] act on the exact
      binary64 values.  Negative zero is identified with zero.
    - A string is a [string] of ASCII characters; case conversion acts on
      the letters a-z and A-Z, and the statements about keys are for keys of
      ASCII characters.
    - An object read by key is the list of its own properties together with
      the members every object literal inherits from [Object.prototype].
    - A property read on [undefined] throws; the code that can throw returns
      an [option], [None] being the exception. *)

From Stdlib Require Import ZArith QArith Qround Qabs Qpower Bool List Ascii String.
From Stdlib Require Import Lia Lqa Permutation.
From Stdlib Require Import Decimal DecimalString DecimalN DecimalZ.
Import ListNotations.

Local Open Scope Q_scope.

(** ** Binary64 values *)

(** The finite values of the binary64 format, as rationals: the numbers
    M * 2^e with |M| < 2^53 and -1074 <= e <= 971.  Rounding is to nearest,
    ties to even. *)
Module Binary64.

Definition pow2 (e : Z) : Q := 2 ^ e.

(** The integer l with 2^l <= q < 2^(l+1), for a positive q. *)
Definition ilog2 (q : Q) : Z :=
  let l := (Z.log2 (Qnum q) - Z.log2 (Zpos (Qden q)))%Z in
  if Qle_bool (pow2 l) q then l else (l - 1)%Z.

(** The integer nearest to s, the even one of two. *)
Definition rne (s : Q) : Z :=
  let f := Qfloor s in
  match Qcompare (s - inject_Z f) (1 # 2) with
  | Lt => f
  | Eq => if Z.even f then f else (f + 1)%Z
  | Gt => (f + 1)%Z
  end.

(** The exponent of the last mantissa bit at a positive q: 53 bits of
    mantissa, and no exponent below the one of the subnormal values. *)
Definition exponent (q : Q) : Z := Z.max (-1074) (ilog2 q - 52).

Definition nearest (q : Q) : Q :=
  inject_Z (rne (q / pow2 (exponent q))) * pow2 (exponent q).

(** Rounding with an exponent that has no upper bound. *)
Definition roundQ (q : Q) : Q :=
  match Qcompare q 0 with
  | Eq => 0
  | Gt => nearest q
  | Lt => - nearest (- q)
  end.

(** [Number.MAX_VALUE] *)
Definition MAX : Q := inject_Z (2 ^ 53 - 1) * pow2 971.

Definition clamp (q : Q) : Q :=
  if Qle_bool q (- MAX) then - MAX
  else if Qle_bool MAX q then MAX
  else q.

(** The finite binary64 value nearest to q. *)
Definition finite (q : Q) : Q := roundQ (clamp q).

(** The rounded value is out of the range of the finite values. *)
Definition overflows (q : Q) : bool := Qle_bool (pow2 1024) (Qabs (roundQ q)).

End Binary64.

(** ** JavaScript values and built-ins *)

Module JS.

Inductive number : Type :=
| NaN
| Infinity (negative : bool)
| Finite (q : Q).

Definition Qltb (x y : Q) : bool := negb (Qle_bool y x).

(** The binary64 value that [Finite q] is: the finite value nearest to q.
    Every operation below reads its finite operands through [real]. *)
Definition real (q : Q) : Q := Binary64.finite q.

(** The number an arithmetic operation returns for the exact result q: q
    rounded, an infinity when the rounded value is out of range. *)
Definition binary64 (q : Q) : number :=
  if Binary64.overflows q then Infinity (Qltb q 0)
  else Finite (Binary64.roundQ q).

(** [a - b] *)
Definition sub (a b : number) : number :=
  match a, b with
  | NaN, _ => NaN
  | _, NaN => NaN
  | Infinity s, Infinity s' => if Bool.eqb s s' then NaN else Infinity s
  | Infinity s, Finite _ => Infinity s
  | Finite _, Infinity s => Infinity (negb s)
  | Finite x, Finite y => binary64 (real x - real y)
  end.

(** [a * b] *)
Definition mul (a b : number) : number :=
  match a, b with
  | NaN, _ => NaN
  | _, NaN => NaN
  | Infinity s, Infinity s' => Infinity (xorb s s')
  | Infinity s, Finite y =>
      if Qeq_bool (real y) 0 then NaN else Infinity (xorb s (Qltb (real y) 0))
  | Finite x, Infinity s =>
      if Qeq_bool (real x) 0 then NaN else Infinity (xorb s (Qltb (real x) 0))
  | Finite x, Finite y => binary64 (real x * real y)
  end.

(** [a < b]: false as soon as one side is [NaN]. *)
Definition lt (a b : number) : bool :=
  match a, b with
  | NaN, _ => false
  | _, NaN => false
  | Infinity s, Infinity s' => s && negb s'
  | Infinity s, Finite _ => s
  | Finite _, Infinity s => negb s
  | Finite x, Finite y => Qltb (real x) (real y)
  end.

(** [a <= b] *)
Definition le (a b : number) : bool :=
  match a, b with
  | NaN, _ => false
  | _, NaN => false
  | Infinity s, Infinity s' => s || negb s'
  | Infinity s, Finite _ => s
  | Finite _, Infinity s => negb s
  | Finite x, Finite y => Qle_bool (real x) (real y)
  end.

Definition gt (a b : number) : bool := lt b a.
Definition ge (a b : number) : bool := le b a.

Definition isNaN (a : number) : bool :=
  match a with NaN => true | _ => false end.

Definition isFinite (a : number) : bool :=
  match a with Finite _ => true | _ => false end.

(** [Math.floor] and [Math.ceil] *)
Definition Math_floor (a : number) : number :=
  match a with
  | Finite q => Finite (inject_Z (Qfloor (real q)))
  | _ => a
  end.

Definition Math_ceil (a : number) : number :=
  match a with
  | Finite q => Finite (inject_Z (Qceiling (real q)))
  | _ => a
  end.

(** The text [x.toFixed(1)] writes, kept as what it denotes: ["NaN"],
    ["Infinity"] with its sign, or a sign and a decimal with one
    fractional digit, held as its number of tenths. *)
Inductive numeral : Type :=
| TextNaN
| TextInfinity (negative : bool)
| TextDecimal (negative : bool) (tenths : Z).

(** [Number.prototype.toFixed] with one fraction digit, on the exact value
    v of the number: the sign is split off, then n is the integer for which
    n / 10 - v is as close to zero as possible, the larger one of two.  From
    10^21 on [toFixed] writes the number in full instead; a binary64 value
    of that size is an integer, on which both writings denote the same
    value. *)
Definition toFixed1 (x : number) : numeral :=
  match x with
  | NaN => TextNaN
  | Infinity s => TextInfinity s
  | Finite q =>
      let v := real q in
      if Qltb v 0
      then TextDecimal true (Qfloor ((- v) * 10 + (1 # 2)))
      else TextDecimal false (Qfloor (v * 10 + (1 # 2)))
  end.

(** [parseFloat] of such a text: the binary64 value nearest to the decimal,
    an infinity when the decimal is out of range. *)
Definition parseFloat (t : numeral) : number :=
  match t with
  | TextNaN => NaN
  | TextInfinity s => Infinity s
  | TextDecimal negative n =>
      let q := (if negative then - n else n)%Z # 10 in
      if Binary64.overflows q then Infinity negative else Finite q
  end.

(** Characters and strings.  A string of the page is modelled when its
    characters are characters of ASCII, one [ascii] each. *)



Definition isLower (a : ascii) : bool :=
  (97 <=? nat_of_ascii a)%nat && (nat_of_ascii a <=? 122)%nat.

Definition isUpper (a : ascii) : bool :=
  (65 <=? nat_of_ascii a)%nat && (nat_of_ascii a <=? 90)%nat.

(** [toUpperCase] and [toLowerCase] on a character of ASCII: the letters
    change case, every other character stays. *)
Definition upperChar (a : ascii) : ascii :=
  if isLower a then ascii_of_nat (nat_of_ascii a - 32) else a.

Definition lowerChar (a : ascii) : ascii :=
  if isUpper a then ascii_of_nat (nat_of_ascii a + 32) else a.

Fixpoint toLowerCase (s : string) : string :=
  match s with
  | EmptyString => EmptyString
  | String a s' => String (lowerChar a) (toLowerCase s')
  end.

Fixpoint toUpperCase (s : string) : string :=
  match s with
  | EmptyString => EmptyString
  | String a s' => String (upperChar a) (toUpperCase s')
  end.

(** [s.includes(sub)] *)
Fixpoint includes (s sub : string) : bool :=
  String.prefix sub s ||
  match s with
  | EmptyString => false
  | String _ s' => includes s' sub
  end.

(** [s.charAt(0).toUpperCase() + s.slice(1)] *)
Definition capitalize (s : string) : string :=
  match s with
  | EmptyString => EmptyString
  | String a s' => String (upperChar a) s'
  end.

(** Among the characters of ASCII, the ones the pattern [.] does not match:
    line feed and carriage return. *)
Definition isLineTerminator (a : ascii) : bool :=
  Ascii.eqb a "010"%char || Ascii.eqb a "013"%char.

(** [s.replace(/_./g, (match) => match.charAt(1).toUpperCase())] on a
    string of ASCII characters: the matches are taken from left to right
    and do not overlap. *)
Fixpoint replaceSnake (s : string) : string :=
  match s with
  | EmptyString => EmptyString
  | String a rest =>
      if Ascii.eqb a "_"%char then
        match rest with
        | EmptyString => String a EmptyString
        | String b rest' =>
            if isLineTerminator b
            then String a (replaceSnake rest)
            else String (upperChar b) (replaceSnake rest')
        end
      else String a (replaceSnake rest)
  end.

(** The values a parsed JSON document holds at a key, as far as [typeof]
    tells them apart. *)
Inductive value : Type :=
| VNumber (n : number)
| VString (s : string)
| VBoolean (b : bool)
| VNull
| VObject.

(** [typeof v === "number"], with the number *)
Definition asNumber (v : value) : option number :=
  match v with
  | VNumber n => Some n
  | _ => None
  end.

(** The names every object literal inherits from [Object.prototype]. *)
Definition Object_prototype : list string :=
  [ "constructor"; "hasOwnProperty"; "isPrototypeOf"; "propertyIsEnumerable";
    "toLocaleString"; "toString"; "valueOf"; "__proto__";
    "__defineGetter__"; "__defineSetter__"; "__lookupGetter__";
    "__lookupSetter__" ]%string.

Definition inherited (key : string) : bool :=
  existsb (String.eqb key) Object_prototype.

(** Own properties of an object, in the order [Object.entries] lists them. *)
Fixpoint own {A : Type} (o : list (string * A)) (key : string) : option A :=
  match o with
  | [] => None
  | (k, v) :: o' => if String.eqb k key then Some v else own o' key
  end.

End JS.

(** ** The recommendations page *)

Module FabricEaseConfig.
Record t : Type := make {
  perfectMin : JS.number;
  perfectMax : JS.number;
  tightThreshold : JS.number;
  looseThreshold : JS.number
}.
End FabricEaseConfig.

(** The result of [calculateFitStatus]. *)
Module FitStatus.
Record t : Type := make {
  status : string;
  difference : JS.number
}.
End FitStatus.

(** An element of [measurementComparisons]; its [label] is display text
    taken from the translations and is left out. *)
Module Comparison.
Record t : Type := make {
  key : string;
  userValue : JS.number;
  chartValue : JS.number;
  difference : JS.number;
  status : string
}.
End Comparison.

(** An element of [fitDetails], again without its [label]. *)
Module FitDetail.
Record t : Type := make {
  key : string;
  userValue : JS.number;
  chartValue : JS.number;
  status : string
}.
End FitDetail.

(** The recommendation the page is given, with the fields the scoring
    reads; [sizeChartData] maps a size label to the measurements of that
    size, each object as the list of its entries. *)
Module Recommendation.
Record t : Type := make {
  recommendedSize : string;
  fabricType : string;
  confidence : string;
  sizeChartData : list (string * list (string * JS.value))
}.
End Recommendation.

Module Recommendations.
Import JS.
Local Open Scope string_scope.

Notation "x <- e ;; k" :=
  (match e with Some x => k | None => None end)
  (at level 61, e at next level, right associativity).

Definition FABRIC_EASE_CONFIGS : list (string * FabricEaseConfig.t) :=
  [ ("rigid",
     {| FabricEaseConfig.perfectMin := Finite 2;
        FabricEaseConfig.perfectMax := Finite 4;
        FabricEaseConfig.tightThreshold := Finite 0;
        FabricEaseConfig.looseThreshold := Finite 6 |});
    ("normal",
     {| FabricEaseConfig.perfectMin := Finite (- (3 # 2));
        FabricEaseConfig.perfectMax := Finite 2;
        FabricEaseConfig.tightThreshold := Finite (- 3);
        FabricEaseConfig.looseThreshold := Finite 4 |});
    ("stretchy",
     {| FabricEaseConfig.perfectMin := Finite (- 4);
        FabricEaseConfig.perfectMax := Finite 1;
        FabricEaseConfig.tightThreshold := Finite (- 6);
        FabricEaseConfig.looseThreshold := Finite 3 |}) ].

(** What [FABRIC_EASE_CONFIGS[key]] evaluates to: an own entry, a member
    inherited from [Object.prototype] (a function or an object), or
    [undefined]. *)
Inductive property : Type :=
| Undefined
| Config (c : FabricEaseConfig.t)
| Builtin (name : string).

(** [calculateFitStatus] reads the table [FABRIC_EASE_CONFIGS] of its
    module; here the table is first a variable, so that the part each field
    of a band plays can be stated, and then the constant. *)
Section Table.
Variable configs : list (string * FabricEaseConfig.t).

Definition get (key : string) : property :=
  match own configs key with
  | Some c => Config c
  | None => if inherited key then Builtin key else Undefined
  end.

(** [a || b]: every object is truthy, [undefined] is not. *)
Definition or_else (a b : property) : property :=
  match a with
  | Undefined => b
  | _ => a
  end.

(** [config.field] as an operand of a comparison: reading a property of
    [undefined] throws; an inherited member has no such field, the read is
    [undefined] and the comparison takes it as [NaN]. *)
Definition read (field : FabricEaseConfig.t -> number) (config : property)
  : option number :=
  match config with
  | Undefined => None
  | Config c => Some (field c)
  | Builtin _ => Some NaN
  end.

(** [calculateFitStatus(userValue, chartValue, fabricType)].  The default
    value of [fabricType] stands in for a missing argument only; both
    callers pass one. *)
Definition calculateFitStatusIn (userValue chartValue : number)
  (fabricType : string) : option FitStatus.t :=
  let difference := parseFloat (toFixed1 (sub chartValue userValue)) in
  let config := or_else (get fabricType) (get "normal") in
  isPerfect <- (lo <- read FabricEaseConfig.perfectMin config ;;
                if ge difference lo
                then hi <- read FabricEaseConfig.perfectMax config ;;
                     Some (le difference hi)
                else Some false) ;;
  if isPerfect then Some (FitStatus.make "perfect" difference) else
  lo <- read FabricEaseConfig.perfectMin config ;;
  if lt difference lo then Some (FitStatus.make "tight" difference) else
  hi <- read FabricEaseConfig.perfectMax config ;;
  if gt difference hi then Some (FitStatus.make "loose" difference) else
  Some (FitStatus.make "good" difference).

End Table.

Definition calculateFitStatus : number -> number -> string -> option FitStatus.t :=
  calculateFitStatusIn FABRIC_EASE_CONFIGS.

(** The profile as fetched: its own properties.  A member inherited from
    [Object.prototype] is a function or an object, never a number, so a key
    that is not an own property fails the [typeof] test like a missing one. *)
Definition Profile : Type := list (string * value).

(** [typeof profile[userKey] === "number"], with the number *)
Definition profileNumber (profile : Profile) (userKey : string)
  : option number :=
  match own profile userKey with
  | Some v => asNumber v
  | None => None
  end.

(** The key looked up in the profile for a size-chart key. *)
Definition userKeyOf (key : string) : string :=
  if includes key "_" then replaceSnake key else key.

(** [entries.forEach(callback)] over an array the callback pushes to. *)
Fixpoint forEach {A S : Type} (callback : S -> A -> option S)
  (entries : list A) (s : S) : option S :=
  match entries with
  | [] => Some s
  | e :: entries' =>
      s' <- callback s e ;;
      forEach callback entries' s'
  end.

(** The callback of the loop that fills [measurementComparisons]. *)
Definition compareEntry (profile : Profile) (fabricType : string)
  (measurementComparisons : list Comparison.t) (entry : string * value)
  : option (list Comparison.t) :=
  let '(key, chartValue) := entry in
  if String.eqb key "size" then Some measurementComparisons else
  match asNumber chartValue with
  | None => Some measurementComparisons
  | Some chartValue =>
      let userKey := userKeyOf key in
      match profileNumber profile userKey with
      | None => Some measurementComparisons
      | Some userValue =>
          r <- calculateFitStatus userValue chartValue fabricType ;;
          Some (measurementComparisons ++
                [ Comparison.make key userValue chartValue
                    (FitStatus.difference r)
                    (capitalize (FitStatus.status r)) ])%list
      end
  end.

(** [measurementComparisons] for the recommended size; the second argument
    is [Object.entries(recommendedSizeMeasurements)]. *)
Definition measurementComparisons (profile : option Profile)
  (recommendedSizeMeasurements : list (string * value))
  (fabricType : string) : option (list Comparison.t) :=
  match profile with
  | Some p =>
      if (0 <? List.length recommendedSizeMeasurements)%nat
      then forEach (compareEntry p fabricType) recommendedSizeMeasurements []
      else Some []
  | None => Some []
  end.

(** [deriveActualConfidence()], closed over [measurementComparisons] and
    [recommendation.confidence]. *)
Definition deriveActualConfidence
  (measurementComparisons : list Comparison.t) (confidence : string)
  : string :=
  if (List.length measurementComparisons =? 0)%nat then confidence else
  let hasTight :=
    existsb (fun m => includes (toLowerCase (Comparison.status m)) "tight")
      measurementComparisons in
  let hasLoose :=
    existsb (fun m => includes (toLowerCase (Comparison.status m)) "loose")
      measurementComparisons in
  let allPerfect :=
    forallb (fun m => includes (toLowerCase (Comparison.status m)) "perfect")
      measurementComparisons in
  if hasTight then "Tight"
  else if hasLoose then "Loose"
  else if allPerfect then "Perfect"
  else "Good".

(** [Object.entries(sizeChartData?.[recommendation.recommendedSize] || {})]:
    a size the chart does not hold gives no entry, and neither does a
    member inherited from [Object.prototype], which has no enumerable
    property of its own. *)
Definition recommendedSizeMeasurements (recommendation : Recommendation.t)
  : list (string * value) :=
  match own (Recommendation.sizeChartData recommendation)
          (Recommendation.recommendedSize recommendation) with
  | Some measurements => measurements
  | None => []
  end.

(** [actualConfidence], from the recommendation and the profile the page
    has fetched. *)
Definition actualConfidence (recommendation : Recommendation.t)
  (profile : option Profile) : option string :=
  comparisons <-
    measurementComparisons profile (recommendedSizeMeasurements recommendation)
      (Recommendation.fabricType recommendation) ;;
  Some (deriveActualConfidence comparisons
          (Recommendation.confidence recommendation)).

(** The callback of the loop that fills [fitDetails] in the size-comparison
    view. *)
Definition detailEntry (profile : Profile) (fabricType : string)
  (fitDetails : list FitDetail.t) (entry : string * value)
  : option (list FitDetail.t) :=
  let '(key, chartValue) := entry in
  if String.eqb key "size" then Some fitDetails else
  match asNumber chartValue with
  | None => Some fitDetails
  | Some chartValue =>
      let userKey := userKeyOf key in
      match profileNumber profile userKey with
      | None => Some fitDetails
      | Some userValue =>
          r <- calculateFitStatus userValue chartValue fabricType ;;
          Some (fitDetails ++
                [ FitDetail.make key userValue chartValue
                    (FitStatus.status r) ])%list
      end
  end.

(** [fitDetails] for the selected size; the view is rendered only with a
    profile.  The second argument is [Object.entries(sizeMeasurements)]. *)
Definition fitDetails (profile : Profile)
  (sizeMeasurements : list (string * value)) (fabricType : string)
  : option (list FitDetail.t) :=
  forEach (detailEntry profile fabricType) sizeMeasurements [].

Definition overallFit (fitDetails : list FitDetail.t) : string :=
  if (0 <? List.length fitDetails)%nat then
    if forallb (fun f => String.eqb (FitDetail.status f) "perfect") fitDetails
    then "perfect"
    else if existsb (fun f => String.eqb (FitDetail.status f) "tight")
              fitDetails
    then "tight"
    else if existsb (fun f => String.eqb (FitDetail.status f) "loose")
              fitDetails
    then "loose"
    else "good"
  else "unknown".

(** The two numbers of the range text of a fit detail:
    [Math.floor(detail.chartValue * 0.95)] and
    [Math.ceil(detail.chartValue * 1.05)]. *)
Definition rangeMin (detail : FitDetail.t) : number :=
  Math_floor (mul (FitDetail.chartValue detail) (Finite (95 # 100))).

Definition rangeMax (detail : FitDetail.t) : number :=
  Math_ceil (mul (FitDetail.chartValue detail) (Finite (105 # 100))).

End Recommendations.

(** ** The display helpers of the page *)

(** An element of [avatarOverlays]. *)
Module Overlay.
Record t : Type := make {
  type : string;
  value : JS.number;
  fitStatus : string;
  label : string
}.
End Overlay.

(** The helpers that turn a status or a confidence into text and colour.
    The translation function [t] of the page is a parameter. *)
Module Display.
Import JS Recommendations.
Local Open Scope string_scope.

Definition translateConfidence (confidence : string) (t : string -> string)
  : string :=
  let confidenceLower := toLowerCase confidence in
  if includes confidenceLower "perfect" then t "recommendations.perfect"
  else if includes confidenceLower "good" then t "recommendations.good"
  else if includes confidenceLower "loose" then t "recommendations.loose"
  else if includes confidenceLower "tight" then t "recommendations.tight"
  else confidence.

Definition getConfidenceBadgeStyle (confidence : string) : string :=
  let confidenceLower := toLowerCase confidence in
  if includes confidenceLower "perfect" then "bg-green-500 text-white"
  else if includes confidenceLower "good" then "bg-blue-500 text-white"
  else if includes confidenceLower "loose" then "bg-yellow-500 text-white"
  else if includes confidenceLower "tight" then "bg-red-500 text-white"
  else "bg-gray-500 text-white".

Definition getMeasurementBorderColor (status : string) : string :=
  let statusLower := toLowerCase status in
  if includes statusLower "perfect" then "border-green-500 border-l-4"
  else if includes statusLower "good" then "border-blue-500 border-l-4"
  else if includes statusLower "loose" then "border-yellow-500 border-l-4"
  else if includes statusLower "tight" then "border-red-500 border-l-4"
  else "border-gray-300 border-l-4".

(** [measurementKey] is optional; a missing key and the empty key are
    falsy, any other key is tested against the four length measurements. *)
Definition translateStatus (status : string) (t : string -> string)
  (measurementKey : option string) : string :=
  let statusLower := toLowerCase status in
  let isLengthMeasurement :=
    match measurementKey with
    | Some k =>
        negb (k =? "") &&
        existsb (String.eqb k)
          ["inseam"; "armLength"; "legLength"; "thighCircumference"]
    | None => false
    end in
  if includes statusLower "perfect" then t "recommendations.perfect"
  else if includes statusLower "good" then t "recommendations.good"
  else if isLengthMeasurement then
    if includes statusLower "loose" then t "recommendations.long"
    else if includes statusLower "tight" then t "recommendations.short"
    else status
  else
    if includes statusLower "loose" then t "recommendations.loose"
    else if includes statusLower "tight" then t "recommendations.tight"
    else status.

Definition getStatusBadgeColor (status : string) : string :=
  let statusLower := toLowerCase status in
  if includes statusLower "perfect" || includes statusLower "ideal"
  then "bg-green-100 text-green-700 border-green-200"
  else if includes statusLower "good"
  then "bg-blue-100 text-blue-700 border-blue-200"
  else if includes statusLower "loose"
  then "bg-yellow-100 text-yellow-700 border-yellow-200"
  else if includes statusLower "tight"
  then "bg-red-100 text-red-700 border-red-200"
  else "bg-gray-100 text-gray-700 border-gray-200".

Definition getFitIndicatorColor (status : string) : string :=
  let statusLower := toLowerCase status in
  if includes statusLower "perfect" || includes statusLower "ideal"
  then "bg-green-500"
  else if includes statusLower "good" then "bg-blue-500"
  else if includes statusLower "loose" then "bg-yellow-500"
  else if includes statusLower "tight" then "bg-red-500"
  else "bg-gray-400".

(** [getFitStatusType] of the size-comparison view. *)
Definition getFitStatusType (status : string) : string :=
  if status =? "perfect" then "perfect"
  else if status =? "loose" then "loose"
  else if status =? "tight" then "tight"
  else "good".

(** [fitDetails.find(d => d.key === key)] *)
Definition findDetail (fitDetails : list FitDetail.t) (key : string)
  : option FitDetail.t :=
  find (fun d => FitDetail.key d =? key) fitDetails.

(** One element of the array literal behind [avatarOverlays]:
    [detail && { type, value, fitStatus, label }]. *)
Definition overlayFor (type : string) (labelKey : string)
  (t : string -> string) (detail : option FitDetail.t) : option Overlay.t :=
  match detail with
  | Some d =>
      Some (Overlay.make type (FitDetail.userValue d)
              (getFitStatusType (FitDetail.status d)) (t labelKey))
  | None => None
  end.

(** [[...].filter(Boolean)]: the overlays that are present. *)
Fixpoint filterBoolean {A : Type} (l : list (option A)) : list A :=
  match l with
  | [] => []
  | Some x :: l' => x :: filterBoolean l'
  | None :: l' => filterBoolean l'
  end.

Definition avatarOverlays (fitDetails : list FitDetail.t)
  (t : string -> string) : list Overlay.t :=
  let chestDetail := findDetail fitDetails "chest" in
  let waistDetail := findDetail fitDetails "waist" in
  let hipDetail := findDetail fitDetails "hip" in
  filterBoolean
    [ overlayFor "chest" "measurements.chest" t chestDetail;
      overlayFor "waist" "measurements.waist" t waistDetail;
      overlayFor "hip" "measurements.hip" t hipDetail ].

(** [highlightRecommended] of the avatar:
    [overallFit === "perfect" ? "chest" : null]. *)
Definition highlightRecommended (overallFit : string) : option string :=
  if overallFit =? "perfect" then Some "chest" else None.

End Display.

(** ** Vocabulary of the statements *)

Module Spec.
Import JS Recommendations.
Local Open Scope string_scope.

(** The statuses [calculateFitStatus] can return. *)
Definition statuses : list string := ["perfect"; "tight"; "loose"; "good"].

(** The values of a derived overall confidence. *)
Definition confidences : list string := ["Perfect"; "Good"; "Tight"; "Loose"].

(** The number of tenths, with its sign, that [toFixed(1)] writes for the
    value v. *)
Definition tenths (v : Q) : Z :=
  if Qltb v 0
  then (- Qfloor ((- v) * 10 + (1 # 2)))%Z
  else Qfloor (v * 10 + (1 # 2)).

(** A comparison as the page builds it: its status is a capitalized
    status of [calculateFitStatus]. *)
Definition verdict (m : Comparison.t) : Prop :=
  exists s, In s statuses /\ Comparison.status m = capitalize s.

(** Some comparison, or every comparison, of a list has the category [s]. *)
Definition anyIs (s : string) (ms : list Comparison.t) : Prop :=
  Exists (fun m => Comparison.status m = capitalize s) ms.

Definition allAre (s : string) (ms : list Comparison.t) : Prop :=
  Forall (fun m => Comparison.status m = capitalize s) ms.

(** The band [calculateFitStatus] reads for a fabric type. *)
Definition configFor (fabricType : string) : property :=
  or_else (get FABRIC_EASE_CONFIGS fabricType)
          (get FABRIC_EASE_CONFIGS "normal").

(** Two tables with the same keys whose bands agree on [perfectMin] and
    [perfectMax]; [tightThreshold] and [looseThreshold] are free. *)
Definition sameDecisionFields
  (configs configs' : list (string * FabricEaseConfig.t)) : Prop :=
  Forall2
    (fun e e' =>
       fst e = fst e' /\
       FabricEaseConfig.perfectMin (snd e)
       = FabricEaseConfig.perfectMin (snd e') /\
       FabricEaseConfig.perfectMax (snd e)
       = FabricEaseConfig.perfectMax (snd e'))
    configs configs'.

End Spec.

(** Vocabulary for the loops over the entries of a size. *)
Module Matching.
Import JS Recommendations Spec.
Local Open Scope string_scope.

(** An entry of a size is compared: its key is not "size", its value is a
    number, and the profile holds a number at the normalized key. *)
Definition compared (profile : Profile) (entry : string * value) : bool :=
  negb (fst entry =? "size") &&
  match asNumber (snd entry),
        profileNumber profile (userKeyOf (fst entry)) with
  | Some _, Some _ => true
  | _, _ => false
  end.

(** A comparison pairs an entry of the size with the profile value at the
    normalized key and carries the result of [calculateFitStatus] on the
    two, the status capitalized. *)
Definition comparisonFrom (profile : Profile)
  (entries : list (string * value)) (fabricType : string)
  (m : Comparison.t) : Prop :=
  Comparison.key m <> "size" /\
  In (Comparison.key m, VNumber (Comparison.chartValue m)) entries /\
  profileNumber profile (userKeyOf (Comparison.key m))
  = Some (Comparison.userValue m) /\
  exists r,
    calculateFitStatus (Comparison.userValue m) (Comparison.chartValue m)
      fabricType = Some r /\
    Comparison.difference m = FitStatus.difference r /\
    Comparison.status m = capitalize (FitStatus.status r).

(** A comparison of the recommendation and a detail of the size-comparison
    view for the same measurement. *)
Definition sameMeasurement (m : Comparison.t) (d : FitDetail.t) : Prop :=
  Comparison.key m = FitDetail.key d /\
  Comparison.userValue m = FitDetail.userValue d /\
  Comparison.chartValue m = FitDetail.chartValue d /\
  Comparison.status m = capitalize (FitDetail.status d) /\
  In (FitDetail.status d) statuses.

End Matching.

(** ** The number field of the profile form *)

(** The component [NumberInput] of the profile page: its state, its event
    handlers and its effect.  A handler is given by the calls it makes to
    the state setters [setLocalValue] and [setIsFocused] and to the [field]
    the form passes in; what the form does on [field.onChange] and which
    [field.value] it supplies to the next render is the form's matter and
    is not fixed here.  Integers are exact; binary64 holds a decimal of up
    to 15 digits exactly, and the statements about numbers carry that
    bound. *)
Module NumberInput.
Import JS.
Local Open Scope string_scope.

Definition isDigit (a : ascii) : bool :=
  (48 <=? nat_of_ascii a)%nat && (nat_of_ascii a <=? 57)%nat.












(** What a handler of the component does: the calls it makes, in order, to
    the two state setters of the component and to the field of the form.
    The value passed to [field.onChange] is [undefined] or a number. *)
Inductive Call : Type :=
| setLocalValue (text : string)
| setIsFocused (focused : bool)
| field_onChange (v : option Z)
| field_onBlur.







Definition onFocus : list Call := [setIsFocused true].



Record KeyEvent : Type := makeKeyEvent {
  key : string;
  ctrlKey : bool;
  metaKey : bool
}.

Definition allowedKeys : list string :=
  [ "Backspace"; "Delete"; "Tab"; "Escape"; "Enter";
    "ArrowLeft"; "ArrowRight"; "ArrowUp"; "ArrowDown";
    "Home"; "End" ].

(** [onKeyDown]: whether [e.preventDefault()] is called. *)
Definition onKeyDown (e : KeyEvent) : bool :=
  if (ctrlKey e || metaKey e) &&
     existsb (String.eqb (toLowerCase (key e))) ["a"; "c"; "v"; "x"]
  then false
  else if existsb (String.eqb (key e)) allowedKeys then false
  else negb (match key e with
             | String a EmptyString => isDigit a
             | _ => false
             end).


End NumberInput.

(** ** The fit aggregator *)

Section Aggregator.
Import JS Recommendations Spec.
Local Open Scope string_scope.

Lemma verdict_test (m : Comparison.t) (t : string) :
  verdict m -> In t statuses ->
  includes (toLowerCase (Comparison.status m)) t = true <->
  Comparison.status m = capitalize t.
Proof.
  intros [s [Hs E]] Ht. rewrite E. unfold statuses in Hs, Ht.
  simpl in Hs, Ht.
  destruct Hs as [<-|[<-|[<-|[<-|[]]]]];
    destruct Ht as [<-|[<-|[<-|[<-|[]]]]];
    vm_compute; split; intros H; solve [reflexivity | discriminate H].
Qed.

Lemma some_test (ms : list Comparison.t) (t : string) :
  Forall verdict ms -> In t statuses ->
  existsb (fun m => includes (toLowerCase (Comparison.status m)) t) ms = true
  <-> anyIs t ms.
Proof.
  intros Hms Ht. unfold anyIs. rewrite existsb_exists, Exists_exists.
  rewrite Forall_forall in Hms.
  split; intros [m [Hin H]]; exists m; split; trivial;
    apply (verdict_test m t (Hms m Hin) Ht); exact H.
Qed.

Lemma every_test (ms : list Comparison.t) (t : string) :
  Forall verdict ms -> In t statuses ->
  forallb (fun m => includes (toLowerCase (Comparison.status m)) t) ms = true
  <-> allAre t ms.
Proof.
  intros Hms Ht. unfold allAre. rewrite forallb_forall, Forall_forall.
  rewrite Forall_forall in Hms.
  split; intros H m Hin; apply (verdict_test m t (Hms m Hin) Ht); auto.
Qed.

Lemma length_eqb_0 {A : Type} (l : list A) :
  l <> [] -> (List.length l =? 0)%nat = false.
Proof. destruct l; [congruence | reflexivity]. Qed.

Lemma bool_true_iff_false (b : bool) (P : Prop) :
  (b = true <-> P) -> ~ P -> b = false.
Proof. intros H HP. destruct b; [exfalso; apply HP, H; reflexivity | reflexivity]. Qed.

(** C3: with no comparison at all, the derived confidence is the confidence
    the recommendation came with, unchanged. *)
Theorem deriveActualConfidence_empty (confidence : string) :
  deriveActualConfidence [] confidence = confidence.
Proof. reflexivity. Qed.

(** C2: over a non-empty list of verdicts the derived confidence follows the
    priority rule: "Tight" as soon as one verdict is tight; else "Loose" as
    soon as one is loose; else "Perfect" exactly when every verdict is
    perfect; "Good" in every remaining case. *)
Theorem deriveActualConfidence_priority
  (ms : list Comparison.t) (confidence : string) :
  ms <> [] -> Forall verdict ms ->
  (anyIs "tight" ms -> deriveActualConfidence ms confidence = "Tight") /\
  (~ anyIs "tight" ms -> anyIs "loose" ms ->
   deriveActualConfidence ms confidence = "Loose") /\
  (~ anyIs "tight" ms -> ~ anyIs "loose" ms ->
   (deriveActualConfidence ms confidence = "Perfect" <-> allAre "perfect" ms)) /\
  (~ anyIs "tight" ms -> ~ anyIs "loose" ms -> ~ allAre "perfect" ms ->
   deriveActualConfidence ms confidence = "Good").
Proof.
  intros Hne Hms.
  assert (HT := some_test ms "tight" Hms).
  assert (HL := some_test ms "loose" Hms).
  assert (HP := every_test ms "perfect" Hms).
  unfold statuses in HT, HL, HP. simpl in HT, HL, HP.
  specialize (HT ltac:(tauto)). specialize (HL ltac:(tauto)).
  specialize (HP ltac:(tauto)).
  unfold deriveActualConfidence. rewrite (length_eqb_0 ms Hne).
  repeat split.
  - intros H. apply HT in H. rewrite H. reflexivity.
  - intros HnT H. apply HL in H.
    rewrite (bool_true_iff_false _ _ HT HnT), H. reflexivity.
  - rewrite (bool_true_iff_false _ _ HT H), (bool_true_iff_false _ _ HL H0).
    intros E. apply HP.
    destruct (forallb _ ms); [reflexivity | discriminate E].
  - rewrite (bool_true_iff_false _ _ HT H), (bool_true_iff_false _ _ HL H0).
    intros E. apply HP in E. rewrite E. reflexivity.
  - intros HnT HnL HnP.
    rewrite (bool_true_iff_false _ _ HT HnT), (bool_true_iff_false _ _ HL HnL),
      (bool_true_iff_false _ _ HP HnP). reflexivity.
Qed.

Lemma existsb_statuses (g : string -> bool) (ms : list Comparison.t)
  (ds : list FitDetail.t) :
  map Comparison.status ms
  = map (fun d => capitalize (FitDetail.status d)) ds ->
  existsb (fun m => g (Comparison.status m)) ms
  = existsb (fun d => g (capitalize (FitDetail.status d))) ds.
Proof.
  revert ds. induction ms as [|m ms IH]; intros [|d ds] E;
    try discriminate E; [reflexivity|].
  simpl in E. injection E as E1 E2. simpl. rewrite E1, (IH ds E2). reflexivity.
Qed.

Lemma forallb_statuses (g : string -> bool) (ms : list Comparison.t)
  (ds : list FitDetail.t) :
  map Comparison.status ms
  = map (fun d => capitalize (FitDetail.status d)) ds ->
  forallb (fun m => g (Comparison.status m)) ms
  = forallb (fun d => g (capitalize (FitDetail.status d))) ds.
Proof.
  revert ds. induction ms as [|m ms IH]; intros [|d ds] E;
    try discriminate E; [reflexivity|].
  simpl in E. injection E as E1 E2. simpl. rewrite E1, (IH ds E2). reflexivity.
Qed.

Lemma status_test (s t : string) :
  In s statuses -> In t statuses ->
  includes (toLowerCase (capitalize s)) t = String.eqb s t.
Proof.
  unfold statuses. simpl. intros Hs Ht.
  destruct Hs as [<-|[<-|[<-|[<-|[]]]]];
    destruct Ht as [<-|[<-|[<-|[<-|[]]]]]; reflexivity.
Qed.

Lemma existsb_details (t : string) (ds : list FitDetail.t) :
  In t statuses -> Forall (fun d => In (FitDetail.status d) statuses) ds ->
  existsb (fun d => includes (toLowerCase (capitalize (FitDetail.status d))) t)
    ds
  = existsb (fun f => String.eqb (FitDetail.status f) t) ds.
Proof.
  intros Ht. induction 1 as [|d ds Hd _ IH]; [reflexivity|].
  simpl. rewrite IH, (status_test _ _ Hd Ht). reflexivity.
Qed.

Lemma forallb_details (t : string) (ds : list FitDetail.t) :
  In t statuses -> Forall (fun d => In (FitDetail.status d) statuses) ds ->
  forallb (fun d => includes (toLowerCase (capitalize (FitDetail.status d))) t)
    ds
  = forallb (fun f => String.eqb (FitDetail.status f) t) ds.
Proof.
  intros Ht. induction 1 as [|d ds Hd _ IH]; [reflexivity|].
  simpl. rewrite IH, (status_test _ _ Hd Ht). reflexivity.
Qed.

(** On a non-empty list whose statuses are all [s], no status is a
    different [t]. *)
Lemma every_excludes_some (s t : string) (ds : list FitDetail.t) :
  s <> t ->
  forallb (fun f => String.eqb (FitDetail.status f) s) ds = true ->
  existsb (fun f => String.eqb (FitDetail.status f) t) ds = false.
Proof.
  intros Hst. induction ds as [|d ds IH]; [reflexivity|].
  simpl. intros H. apply andb_true_iff in H. destruct H as [H1 H2].
  rewrite (IH H2), orb_false_r. apply String.eqb_eq in H1.
  apply String.eqb_neq. congruence.
Qed.

(** C10: the two overall-fit derivations agree.  Over a non-empty list of
    statuses of [calculateFitStatus], the confidence [deriveActualConfidence]
    computes from the capitalized statuses is the capitalized [overallFit]
    of the size-comparison view. *)
Theorem deriveActualConfidence_agrees_overallFit
  (ms : list Comparison.t) (ds : list FitDetail.t) (confidence : string) :
  ds <> [] ->
  Forall (fun d => In (FitDetail.status d) statuses) ds ->
  map Comparison.status ms
  = map (fun d => capitalize (FitDetail.status d)) ds ->
  deriveActualConfidence ms confidence = capitalize (overallFit ds).
Proof.
  intros Hne Hds E.
  assert (Hlen : List.length ms = List.length ds).
  { rewrite <- (length_map Comparison.status ms), E. apply length_map. }
  unfold deriveActualConfidence, overallFit.
  rewrite Hlen, (length_eqb_0 ds Hne).
  rewrite !(existsb_statuses (fun s => includes (toLowerCase s) _) ms ds E).
  rewrite (forallb_statuses (fun s => includes (toLowerCase s) _) ms ds E).
  rewrite !existsb_details, forallb_details by (trivial; vm_compute; tauto).
  destruct ds as [|d ds]; [congruence|].
  replace (0 <? List.length (d :: ds))%nat with true by reflexivity.
  destruct (forallb _ (d :: ds)) eqn:EP.
  - rewrite (every_excludes_some "perfect" "tight" _ ltac:(discriminate) EP).
    rewrite (every_excludes_some "perfect" "loose" _ ltac:(discriminate) EP).
    reflexivity.
  - destruct (existsb _ (d :: ds)); [reflexivity|].
    destruct (existsb _ (d :: ds)); reflexivity.
Qed.

Lemma deriveActualConfidence_priority_witness :
  let ms :=
    [ Comparison.make "chest" (Finite 90) (Finite 91) (Finite (10 # 10))
        "Perfect";
      Comparison.make "waist" (Finite 80) (Finite 80) (Finite (0 # 10))
        "Perfect";
      Comparison.make "hip" (Finite 95) (Finite 90) (Finite (-50 # 10))
        "Tight" ] in
  ms <> [] /\ Forall verdict ms /\
  (anyIs "tight" ms -> deriveActualConfidence ms "High" = "Tight") /\
  (~ anyIs "tight" ms -> anyIs "loose" ms ->
   deriveActualConfidence ms "High" = "Loose") /\
  (~ anyIs "tight" ms -> ~ anyIs "loose" ms ->
   (deriveActualConfidence ms "High" = "Perfect" <-> allAre "perfect" ms)) /\
  (~ anyIs "tight" ms -> ~ anyIs "loose" ms -> ~ allAre "perfect" ms ->
   deriveActualConfidence ms "High" = "Good").
Proof.
  cbv zeta.
  assert (Hne : [ Comparison.make "chest" (Finite 90) (Finite 91)
                    (Finite (10 # 10)) "Perfect";
                  Comparison.make "waist" (Finite 80) (Finite 80)
                    (Finite (0 # 10)) "Perfect";
                  Comparison.make "hip" (Finite 95) (Finite 90)
                    (Finite (-50 # 10)) "Tight" ] <> [])
    by discriminate.
  assert (Hv : Forall verdict
                 [ Comparison.make "chest" (Finite 90) (Finite 91)
                     (Finite (10 # 10)) "Perfect";
                   Comparison.make "waist" (Finite 80) (Finite 80)
                     (Finite (0 # 10)) "Perfect";
                   Comparison.make "hip" (Finite 95) (Finite 90)
                     (Finite (-50 # 10)) "Tight" ]).
  { repeat constructor.
    - exists "perfect". split; [simpl; tauto | reflexivity].
    - exists "perfect". split; [simpl; tauto | reflexivity].
    - exists "tight". split; [simpl; tauto | reflexivity]. }
  split; [exact Hne|]. split; [exact Hv|].
  exact (deriveActualConfidence_priority _ "High" Hne Hv).
Defined.

Lemma deriveActualConfidence_agrees_overallFit_witness :
  let ds :=
    [ FitDetail.make "chest" (Finite 90) (Finite 91) "perfect";
      FitDetail.make "waist" (Finite 80) (Finite 86) "loose" ] in
  let ms :=
    [ Comparison.make "chest" (Finite 90) (Finite 91) (Finite (10 # 10))
        "Perfect";
      Comparison.make "waist" (Finite 80) (Finite 86) (Finite (60 # 10))
        "Loose" ] in
  ds <> [] /\
  Forall (fun d => In (FitDetail.status d) statuses) ds /\
  map Comparison.status ms
  = map (fun d => capitalize (FitDetail.status d)) ds /\
  deriveActualConfidence ms "High" = capitalize (overallFit ds).
Proof.
  cbv zeta.
  assert (Hne : [ FitDetail.make "chest" (Finite 90) (Finite 91) "perfect";
                  FitDetail.make "waist" (Finite 80) (Finite 86) "loose" ]
                <> []) by discriminate.
  assert (Hs : Forall (fun d => In (FitDetail.status d) statuses)
                 [ FitDetail.make "chest" (Finite 90) (Finite 91) "perfect";
                   FitDetail.make "waist" (Finite 80) (Finite 86) "loose" ]).
  { repeat constructor; simpl; tauto. }
  split; [exact Hne|]. split; [exact Hs|]. split; [reflexivity|].
  apply (deriveActualConfidence_agrees_overallFit _ _ "High" Hne Hs).
  reflexivity.
Defined.

End Aggregator.

(** ** Binary64 rounding *)

Section Rounding.
Import Binary64.

(** Powers of two. *)
Lemma pow2_pos e : 0 < pow2 e.
Proof. apply Qpower_0_lt. reflexivity. Qed.

Lemma pow2_plus a b : pow2 (a + b) == pow2 a * pow2 b.
Proof. apply Qpower_plus. discriminate. Qed.

Lemma pow2_succ e : pow2 (e + 1) == 2 * pow2 e.
Proof. rewrite pow2_plus. change (pow2 1) with 2. ring. Qed.

Lemma pow2_le a b : (a <= b)%Z -> pow2 a <= pow2 b.
Proof. intros H. apply Qpower_le_compat_l; [exact H|discriminate]. Qed.

Lemma pow2_lt a b : (a < b)%Z -> pow2 a < pow2 b.
Proof. intros H. apply Qpower_lt_compat_l; [exact H|reflexivity]. Qed.

Lemma pow2_lt_inv a b : pow2 a < pow2 b -> (a < b)%Z.
Proof. intros H. apply (Qpower_lt_compat_l_inv 2); [exact H|reflexivity]. Qed.

Lemma pow2_Z e : (0 <= e)%Z -> pow2 e == inject_Z (2 ^ e).
Proof. intros H. unfold pow2. rewrite Zpower_Qpower by exact H. reflexivity. Qed.

Lemma pow2_minus a b : pow2 (a - b) == pow2 a / pow2 b.
Proof.
  assert (H : pow2 a == pow2 (a - b) * pow2 b).
  { rewrite <- pow2_plus. replace (a - b + b)%Z with a by ring. reflexivity. }
  rewrite H. field. pose proof (pow2_pos b). lra.
Qed.

Lemma Qdiv_mult_cancel q p : 0 < p -> q / p * p == q.
Proof. intros H. field. lra. Qed.

(** The binary logarithm of a positive rational. *)
Lemma Zlog2_bounds (n : Z) : (0 < n)%Z ->
  pow2 (Z.log2 n) <= inject_Z n /\ inject_Z n < pow2 (Z.log2 n + 1).
Proof.
  intros H. destruct (Z.log2_spec n H) as [H1 H2].
  pose proof (Z.log2_nonneg n) as H0.
  rewrite !pow2_Z by lia. rewrite <- Zle_Qle, <- Zlt_Qlt.
  replace (Z.log2 n + 1)%Z with (Z.succ (Z.log2 n)) by lia. split; assumption.
Qed.

Lemma Qmake_div (q : Q) : q == inject_Z (Qnum q) / inject_Z (Zpos (Qden q)).
Proof. destruct q as [n d]. simpl. apply Qmake_Qdiv. Qed.

Lemma ilog2_spec q : 0 < q -> pow2 (ilog2 q) <= q /\ q < pow2 (ilog2 q + 1).
Proof.
  intros Hq. unfold ilog2.
  set (n := Qnum q). set (d := Zpos (Qden q)).
  assert (Hn : (0 < n)%Z).
  { unfold n. destruct q as [qn qd]. unfold Qlt in Hq. simpl in *. lia. }
  assert (Hd : (0 < d)%Z) by (unfold d; lia).
  destruct (Zlog2_bounds n Hn) as [N1 N2].
  destruct (Zlog2_bounds d Hd) as [D1 D2].
  set (a := Z.log2 n) in *. set (b := Z.log2 d) in *.
  assert (E : q == inject_Z n / inject_Z d) by apply Qmake_div.
  assert (Dpos : 0 < inject_Z d).
  { change 0 with (inject_Z 0). rewrite <- Zlt_Qlt. exact Hd. }
  assert (Eq' : q * inject_Z d == inject_Z n).
  { rewrite E. field. lra. }
  pose proof (pow2_pos a) as Pa. pose proof (pow2_pos b) as Pb.
  pose proof (pow2_pos (a - b)) as Pab.
  assert (Eab : pow2 (a - b) * pow2 b == pow2 a).
  { rewrite <- pow2_plus. replace (a - b + b)%Z with a by ring. reflexivity. }
  rewrite pow2_succ in N2, D2.
  assert (Up : q < pow2 (a - b + 1)).
  { rewrite pow2_succ.
    apply Qnot_le_lt. intros C.
    assert (2 * pow2 (a - b) * pow2 b <= q * inject_Z d).
    { apply Qle_trans with (q * pow2 b).
      - apply Qmult_le_compat_r; lra.
      - rewrite (Qmult_comm q (pow2 b)), (Qmult_comm q (inject_Z d)).
        apply Qmult_le_compat_r; lra. }
    rewrite Eq' in H. nra. }
  assert (Lo : pow2 (a - b - 1) < q).
  { assert (E1 : pow2 (a - b) == 2 * pow2 (a - b - 1)).
    { rewrite <- pow2_succ.
      replace (a - b - 1 + 1)%Z with (a - b)%Z by ring. reflexivity. }
    apply Qnot_le_lt. intros C.
    assert (q * inject_Z d <= pow2 (a - b - 1) * inject_Z d).
    { apply Qmult_le_compat_r; lra. }
    assert (pow2 (a - b - 1) * inject_Z d < pow2 (a - b - 1) * (2 * pow2 b)).
    { pose proof (pow2_pos (a - b - 1)).
      rewrite !(Qmult_comm (pow2 (a - b - 1))).
      apply Qmult_lt_compat_r; lra. }
    nra. }
  destruct (Qle_bool (pow2 (a - b)) q) eqn:EL.
  - apply Qle_bool_iff in EL. split; assumption.
  - replace (a - b - 1 + 1)%Z with (a - b)%Z by ring. split; [lra|].
    apply Qnot_le_lt. intros C. apply Qle_bool_iff in C. congruence.
Qed.

Lemma ilog2_unique q l : pow2 l <= q -> q < pow2 (l + 1) -> ilog2 q = l.
Proof.
  intros H1 H2.
  assert (Hq : 0 < q) by (pose proof (pow2_pos l); lra).
  destruct (ilog2_spec q Hq) as [S1 S2].
  assert (pow2 l < pow2 (ilog2 q + 1)) by lra.
  assert (pow2 (ilog2 q) < pow2 (l + 1)) by lra.
  apply pow2_lt_inv in H, H0. lia.
Qed.

Lemma ilog2_comp q q' : 0 < q -> q == q' -> ilog2 q = ilog2 q'.
Proof.
  intros Hq E. symmetry. destruct (ilog2_spec q Hq) as [S1 S2].
  apply ilog2_unique; rewrite <- E; assumption.
Qed.

Lemma ilog2_le q q' : 0 < q -> q <= q' -> (ilog2 q <= ilog2 q')%Z.
Proof.
  intros Hq H. destruct (ilog2_spec q Hq) as [S1 _].
  destruct (ilog2_spec q' ltac:(lra)) as [_ S2].
  assert (pow2 (ilog2 q) < pow2 (ilog2 q' + 1)) by lra.
  apply pow2_lt_inv in H0. lia.
Qed.

(** Rounding to the nearest integer. *)
Lemma rne_comp s s' : s == s' -> rne s = rne s'.
Proof.
  intros E. unfold rne. rewrite (Qfloor_comp s s' E).
  assert (C : Qcompare (s - inject_Z (Qfloor s')) (1 # 2)
              = Qcompare (s' - inject_Z (Qfloor s')) (1 # 2)).
  { apply Qcompare_comp; [rewrite E; reflexivity|reflexivity]. }
  rewrite C. reflexivity.
Qed.

Lemma floor_bounds s : inject_Z (Qfloor s) <= s /\ s < inject_Z (Qfloor s) + 1.
Proof.
  split; [apply Qfloor_le|].
  pose proof (Qlt_floor s) as H. rewrite inject_Z_plus in H. exact H.
Qed.

Lemma rne_cases s :
  let f := Qfloor s in
  (rne s = f /\ s - inject_Z f <= 1 # 2) \/
  (rne s = (f + 1)%Z /\ 1 # 2 <= s - inject_Z f).
Proof.
  cbv zeta. unfold rne.
  destruct (Qcompare_spec (s - inject_Z (Qfloor s)) (1 # 2)) as [E|L|G].
  - destruct (Z.even (Qfloor s)); [left|right]; split; try reflexivity; lra.
  - left. split; [reflexivity|lra].
  - right. split; [reflexivity|lra].
Qed.

Lemma rne_err s : Qabs (inject_Z (rne s) - s) <= 1 # 2.
Proof.
  destruct (floor_bounds s) as [F1 F2].
  apply Qabs_Qle_condition.
  destruct (rne_cases s) as [[-> H]|[-> H]].
  - split; lra.
  - rewrite inject_Z_plus. change (inject_Z 1) with 1. split; lra.
Qed.

Lemma floor_unique s (M : Z) : inject_Z M <= s -> s < inject_Z M + 1 -> Qfloor s = M.
Proof.
  intros H1 H2. destruct (floor_bounds s) as [F1 F2].
  assert (A : (Qfloor s < M + 1)%Z).
  { rewrite Zlt_Qlt, inject_Z_plus. change (inject_Z 1) with 1. lra. }
  assert (B : (M < Qfloor s + 1)%Z).
  { rewrite Zlt_Qlt, inject_Z_plus. change (inject_Z 1) with 1. lra. }
  lia.
Qed.

Lemma inject_Z_pred (M : Z) : inject_Z (M - 1) == inject_Z M - 1.
Proof. unfold Qeq, Qminus, Qplus, inject_Z. simpl. lia. Qed.

Lemma inject_Z_succ (M : Z) : inject_Z (M + 1) == inject_Z M + 1.
Proof. rewrite inject_Z_plus. reflexivity. Qed.

Lemma rne_near s (M : Z) : Qabs (s - inject_Z M) < 1 # 2 -> rne s = M.
Proof.
  intros H. apply Qabs_Qlt_condition in H. destruct H as [H1 H2].
  destruct (Qlt_le_dec s (inject_Z M)) as [L|G].
  - assert (F : Qfloor s = (M - 1)%Z).
    { apply floor_unique; rewrite inject_Z_pred; lra. }
    destruct (rne_cases s) as [[E H]|[E H]]; rewrite F in *.
    + rewrite inject_Z_pred in H. lra.
    + rewrite E. lia.
  - assert (F : Qfloor s = M) by (apply floor_unique; lra).
    destruct (rne_cases s) as [[E H]|[E H]]; rewrite F in *.
    + exact E.
    + lra.
Qed.

Lemma rne_Z (z : Z) : rne (inject_Z z) = z.
Proof.
  apply rne_near. setoid_replace (inject_Z z - inject_Z z) with 0 by ring.
  reflexivity.
Qed.

Lemma rne_le s s' : s <= s' -> (rne s <= rne s')%Z.
Proof.
  intros H. pose proof (Qfloor_resp_le s s' H) as F.
  destruct (floor_bounds s) as [A1 A2]. destruct (floor_bounds s') as [B1 B2].
  destruct (Z.eq_dec (Qfloor s) (Qfloor s')) as [E|N].
  - unfold rne. rewrite E.
    destruct (Qcompare_spec (s - inject_Z (Qfloor s')) (1 # 2)) as [E1|L1|G1];
      destruct (Qcompare_spec (s' - inject_Z (Qfloor s')) (1 # 2)) as [E2|L2|G2];
      try destruct (Z.even (Qfloor s')); try lia; exfalso; lra.
  - assert (Qfloor s + 1 <= Qfloor s')%Z by lia.
    destruct (rne_cases s) as [[-> _]|[-> _]];
      destruct (rne_cases s') as [[-> _]|[-> _]]; lia.
Qed.

Lemma rne_nonneg s : 0 <= s -> (0 <= rne s)%Z.
Proof. intros H. rewrite <- (rne_Z 0). apply rne_le. exact H. Qed.

(** The exponent of a positive rational. *)
Lemma exponent_min q : (-1074 <= exponent q)%Z.
Proof. unfold exponent. lia. Qed.

Lemma exponent_upper q : 0 < q -> q < pow2 (exponent q + 53).
Proof.
  intros Hq. destruct (ilog2_spec q Hq) as [_ S].
  apply Qlt_le_trans with (pow2 (ilog2 q + 1)); [exact S|].
  apply pow2_le. unfold exponent. lia.
Qed.

Lemma exponent_lower q : 0 < q -> (-1074 < exponent q)%Z -> pow2 (exponent q + 52) <= q.
Proof.
  intros Hq H. destruct (ilog2_spec q Hq) as [S _].
  replace (exponent q + 52)%Z with (ilog2 q); [exact S|]. unfold exponent in *. lia.
Qed.

Lemma exponent_normal q e :
  (-1074 <= e)%Z -> pow2 (e + 52) <= q -> q < pow2 (e + 53) -> exponent q = e.
Proof.
  intros He H1 H2. unfold exponent.
  rewrite (ilog2_unique q (e + 52)); [lia|exact H1|].
  replace (e + 52 + 1)%Z with (e + 53)%Z by ring. exact H2.
Qed.

Lemma exponent_subnormal q : 0 < q -> q < pow2 (-1021) -> exponent q = (-1074)%Z.
Proof.
  intros Hq H. destruct (ilog2_spec q Hq) as [S _].
  assert (pow2 (ilog2 q) < pow2 (-1021)) by lra.
  apply pow2_lt_inv in H0. unfold exponent. lia.
Qed.

Lemma exponent_comp q q' : 0 < q -> q == q' -> exponent q = exponent q'.
Proof. intros Hq E. unfold exponent. rewrite (ilog2_comp q q' Hq E). reflexivity. Qed.

Lemma exponent_le q q' : 0 < q -> q <= q' -> (exponent q <= exponent q')%Z.
Proof. intros Hq H. pose proof (ilog2_le q q' Hq H). unfold exponent. lia. Qed.

(** Rounding of a positive rational. *)
Lemma nearest_comp q q' : 0 < q -> q == q' -> nearest q == nearest q'.
Proof.
  intros Hq E. unfold nearest. rewrite <- (exponent_comp q q' Hq E).
  set (e := exponent q). rewrite (rne_comp (q / pow2 e) (q' / pow2 e)).
  - reflexivity.
  - generalize (pow2 e). intros p. rewrite E. reflexivity.
Qed.

Lemma scaled_pos q e : 0 < q -> 0 < q / pow2 e.
Proof.
  intros Hq. pose proof (pow2_pos e) as P.
  apply Qlt_shift_div_l; [exact P|lra].
Qed.

Lemma nearest_nonneg q : 0 < q -> 0 <= nearest q.
Proof.
  intros Hq. unfold nearest. pose proof (pow2_pos (exponent q)) as P.
  pose proof (rne_nonneg (q / pow2 (exponent q))
                (Qlt_le_weak _ _ (scaled_pos q _ Hq))) as M.
  apply Qmult_le_0_compat; [|lra].
  change 0 with (inject_Z 0). rewrite <- Zle_Qle. exact M.
Qed.

Lemma nearest_err q : 0 < q -> Qabs (nearest q - q) <= pow2 (exponent q) / 2.
Proof.
  intros Hq. unfold nearest. set (e := exponent q). set (s := q / pow2 e).
  pose proof (pow2_pos e) as P.
  assert (E : q == s * pow2 e) by (unfold s; field; lra).
  pose proof (rne_err s) as R.
  setoid_replace (inject_Z (rne s) * pow2 e - q)
    with ((inject_Z (rne s) - s) * pow2 e) by (rewrite E at 1; ring).
  setoid_replace (pow2 e / 2) with ((1 # 2) * pow2 e) by (field).
  rewrite Qabs_Qmult, (Qabs_pos (pow2 e)) by lra.
  apply Qmult_le_compat_r; [exact R|lra].
Qed.

Lemma mantissa_upper q : 0 < q -> (rne (q / pow2 (exponent q)) <= 2 ^ 53)%Z.
Proof.
  intros Hq. rewrite <- (rne_Z (2 ^ 53)). apply rne_le.
  pose proof (exponent_upper q Hq) as U. pose proof (pow2_pos (exponent q)) as P.
  rewrite pow2_plus in U. change (pow2 53) with (inject_Z (2 ^ 53)) in U.
  apply Qle_shift_div_r; [exact P|]. lra.
Qed.

Lemma mantissa_lower q :
  0 < q -> (-1074 < exponent q)%Z -> (2 ^ 52 <= rne (q / pow2 (exponent q)))%Z.
Proof.
  intros Hq H. rewrite <- (rne_Z (2 ^ 52)). apply rne_le.
  pose proof (exponent_lower q Hq H) as U. pose proof (pow2_pos (exponent q)) as P.
  rewrite pow2_plus in U. change (pow2 52) with (inject_Z (2 ^ 52)) in U.
  apply Qle_shift_div_l; [exact P|]. lra.
Qed.

(** Values [M * 2^e] with a mantissa of at most 53 bits are fixed. *)
Lemma exponent_repr (M e : Z) :
  (-1074 <= e)%Z -> (0 < M < 2 ^ 53)%Z -> (2 ^ 52 <= M \/ e = -1074)%Z ->
  exponent (inject_Z M * pow2 e) = e.
Proof.
  intros He HM Hn. pose proof (pow2_pos e) as P.
  assert (M1 : inject_Z M < inject_Z (2 ^ 53)) by (rewrite <- Zlt_Qlt; lia).
  assert (M0 : 0 < inject_Z M).
  { change 0 with (inject_Z 0). rewrite <- Zlt_Qlt. lia. }
  assert (U : inject_Z M * pow2 e < pow2 (e + 53)).
  { rewrite pow2_plus. change (pow2 53) with (inject_Z (2 ^ 53)). nra. }
  destruct (Z_le_gt_dec (2 ^ 52) M) as [N|S].
  - apply exponent_normal; [exact He| |exact U].
    rewrite pow2_plus. change (pow2 52) with (inject_Z (2 ^ 52)).
    assert (inject_Z (2 ^ 52) <= inject_Z M) by (rewrite <- Zle_Qle; exact N).
    nra.
  - destruct Hn as [Hn| ->]; [lia|].
    apply exponent_subnormal; [nra|].
    assert (inject_Z M < inject_Z (2 ^ 52)) by (rewrite <- Zlt_Qlt; lia).
    apply Qlt_trans with (inject_Z (2 ^ 52) * pow2 (-1074)); [nra|].
    change (inject_Z (2 ^ 52)) with (pow2 52). rewrite <- pow2_plus.
    apply pow2_lt. lia.
Qed.

Lemma nearest_scaled (M e : Z) q :
  0 < q -> exponent q = e -> q == inject_Z M * pow2 e -> nearest q == q.
Proof.
  intros Hq He E. unfold nearest. rewrite He. pose proof (pow2_pos e) as P.
  rewrite (rne_comp (q / pow2 e) (inject_Z M)).
  - rewrite rne_Z. symmetry. exact E.
  - rewrite E. field. lra.
Qed.

Lemma nearest_idem q : 0 < q -> 0 < nearest q -> nearest (nearest q) == nearest q.
Proof.
  intros Hq Hv. set (e := exponent q). set (M := rne (q / pow2 e)).
  pose proof (mantissa_upper q Hq) as MU. fold e in MU. fold M in MU.
  pose proof (pow2_pos e) as P. pose proof (exponent_min q) as Emin. fold e in Emin.
  assert (V : nearest q == inject_Z M * pow2 e) by reflexivity.
  assert (M0 : (0 < M)%Z).
  { rewrite V in Hv. destruct (Z_lt_le_dec 0 M) as [A|A]; [exact A|].
    assert (inject_Z M <= 0) by (change 0 with (inject_Z 0); rewrite <- Zle_Qle; exact A).
    nra. }
  destruct (Z.eq_dec M (2 ^ 53)) as [E53|N53].
  - apply (nearest_scaled (2 ^ 52) (e + 1)); [exact Hv| |].
    + rewrite (exponent_comp _ (inject_Z (2 ^ 52) * pow2 (e + 1)) Hv).
      * apply exponent_repr; lia.
      * rewrite V, E53, pow2_succ. change (inject_Z (2 ^ 53)) with (2 * inject_Z (2 ^ 52)).
        ring.
    + rewrite V, E53, pow2_succ. change (inject_Z (2 ^ 53)) with (2 * inject_Z (2 ^ 52)).
      ring.
  - apply (nearest_scaled M e); [exact Hv| |exact V].
    rewrite (exponent_comp _ (inject_Z M * pow2 e) Hv V).
    apply exponent_repr; [exact Emin|lia|].
    destruct (Z.eq_dec e (-1074)) as [->|Ne]; [right; reflexivity|left].
    apply mantissa_lower; [exact Hq|fold e; lia].
Qed.

Lemma nearest_near q (M : Z) :
  0 < q -> Qabs (q - inject_Z M * pow2 (exponent q)) < pow2 (exponent q) / 2 ->
  nearest q == inject_Z M * pow2 (exponent q).
Proof.
  intros Hq H. unfold nearest. set (e := exponent q) in *.
  pose proof (pow2_pos e) as P.
  rewrite (rne_near (q / pow2 e) M); [reflexivity|].
  assert (E : q == (q / pow2 e) * pow2 e) by (field; lra).
  set (s := q / pow2 e) in *.
  setoid_replace (q - inject_Z M * pow2 e) with ((s - inject_Z M) * pow2 e) in H
    by (rewrite E at 1; ring).
  setoid_replace (pow2 e / 2) with ((1 # 2) * pow2 e) in H by field.
  rewrite Qabs_Qmult, (Qabs_pos (pow2 e)) in H by lra.
  apply Qmult_lt_r in H; [exact H|exact P].
Qed.

Lemma nearest_mono q q' : 0 < q -> q <= q' -> nearest q <= nearest q'.
Proof.
  intros Hq H. assert (Hq' : 0 < q') by lra.
  pose proof (exponent_le q q' Hq H) as EL.
  set (e := exponent q) in *. set (e' := exponent q') in *.
  pose proof (pow2_pos e) as P. pose proof (pow2_pos e') as P'.
  destruct (Z.eq_dec e e') as [E|N].
  - unfold nearest. fold e e'. rewrite <- E.
    assert (R : (rne (q / pow2 e) <= rne (q' / pow2 e))%Z).
    { apply rne_le. apply Qmult_le_compat_r; [exact H|].
      apply Qlt_le_weak, Qinv_lt_0_compat, P. }
    rewrite Zle_Qle in R. nra.
  - assert (L : (e < e')%Z) by lia.
    pose proof (exponent_min q) as Emin. fold e in Emin.
    set (B := pow2 (e' + 52)).
    assert (B1 : B <= q').
    { apply exponent_lower; [exact Hq'|fold e'; lia]. }
    assert (B0 : q < B).
    { apply Qlt_le_trans with (pow2 (e + 53)); [apply exponent_upper, Hq|].
      apply pow2_le. lia. }
    apply Qle_trans with B.
    + unfold nearest. fold e.
      assert (EB : B == inject_Z (2 ^ (e' + 52 - e)) * pow2 e).
      { unfold B. rewrite <- pow2_Z by lia. rewrite <- pow2_plus.
        replace (e' + 52 - e + e)%Z with (e' + 52)%Z by ring. reflexivity. }
      assert (R : (rne (q / pow2 e) <= 2 ^ (e' + 52 - e))%Z).
      { rewrite <- (rne_Z (2 ^ (e' + 52 - e))). apply rne_le.
        apply Qle_shift_div_r; [exact P|]. rewrite <- EB. lra. }
      rewrite Zle_Qle in R. rewrite EB. nra.
    + unfold nearest. fold e'.
      assert (EB : B == inject_Z (2 ^ 52) * pow2 e').
      { unfold B. change (inject_Z (2 ^ 52)) with (pow2 52).
        rewrite <- pow2_plus. replace (52 + e')%Z with (e' + 52)%Z by ring.
        reflexivity. }
      assert (R : (2 ^ 52 <= rne (q' / pow2 e'))%Z).
      { rewrite <- (rne_Z (2 ^ 52)). apply rne_le.
        apply Qle_shift_div_l; [exact P'|]. rewrite <- EB. exact B1. }
      rewrite Zle_Qle in R. rewrite EB. nra.
Qed.

Lemma exponent_below q e :
  0 < q -> (-1074 <= e)%Z -> q < pow2 (e + 53) -> (exponent q <= e)%Z.
Proof.
  intros Hq He H. destruct (ilog2_spec q Hq) as [S _].
  assert (L : pow2 (ilog2 q) < pow2 (e + 53)) by lra.
  apply pow2_lt_inv in L. unfold exponent. lia.
Qed.

(** A value [M * 2^e] with less than 53 bits of mantissa is fixed. *)
Lemma nearest_fixed (M e : Z) q :
  0 < q -> (-1074 <= e)%Z -> (M < 2 ^ 53)%Z -> q == inject_Z M * pow2 e ->
  nearest q == q.
Proof.
  intros Hq He HM E. pose proof (pow2_pos e) as P.
  assert (U : q < pow2 (e + 53)).
  { rewrite pow2_plus. change (pow2 53) with (inject_Z (2 ^ 53)).
    assert (inject_Z M < inject_Z (2 ^ 53)) by (rewrite <- Zlt_Qlt; exact HM).
    rewrite E. nra. }
  pose proof (exponent_below q e Hq He U) as L.
  unfold nearest. set (e' := exponent q) in *. pose proof (pow2_pos e') as P'.
  assert (S : q / pow2 e' == inject_Z (M * 2 ^ (e - e'))).
  { rewrite inject_Z_mult, <- pow2_Z by lia. rewrite pow2_minus, E.
    field. lra. }
  rewrite (rne_comp _ _ S), rne_Z, <- S. field. lra.
Qed.

(** Rounding of any rational: odd, monotone and idempotent. *)
Lemma roundQ_pos q : 0 < q -> roundQ q = nearest q.
Proof.
  intros H. unfold roundQ. destruct (Qcompare q 0) eqn:C; [| |reflexivity].
  - apply Qeq_alt in C. lra.
  - apply Qlt_alt in C. lra.
Qed.

Lemma roundQ_neg q : q < 0 -> roundQ q = - nearest (- q).
Proof.
  intros H. unfold roundQ. destruct (Qcompare q 0) eqn:C; [|reflexivity|].
  - apply Qeq_alt in C. lra.
  - apply Qgt_alt in C. lra.
Qed.

Lemma roundQ_zero q : q == 0 -> roundQ q = 0.
Proof.
  intros H. unfold roundQ. destruct (Qcompare q 0) eqn:C; [reflexivity| |].
  - apply Qlt_alt in C. lra.
  - apply Qgt_alt in C. lra.
Qed.

Lemma roundQ_cases q :
  (q < 0 /\ roundQ q = - nearest (- q)) \/
  (q == 0 /\ roundQ q = 0) \/
  (0 < q /\ roundQ q = nearest q).
Proof.
  destruct (Q_dec q 0) as [[H|H]|H].
  - left. split; [exact H|apply roundQ_neg, H].
  - right. right. split; [exact H|apply roundQ_pos, H].
  - right. left. split; [exact H|apply roundQ_zero, H].
Qed.

Lemma roundQ_comp q q' : q == q' -> roundQ q == roundQ q'.
Proof.
  intros E. destruct (roundQ_cases q) as [[H ->]|[[H ->]|[H ->]]].
  - rewrite roundQ_neg by lra. apply Qopp_comp. apply nearest_comp; lra.
  - rewrite roundQ_zero by lra. reflexivity.
  - rewrite roundQ_pos by lra. apply nearest_comp; assumption.
Qed.

Lemma roundQ_opp q : roundQ (- q) == - roundQ q.
Proof.
  destruct (roundQ_cases q) as [[H ->]|[[H ->]|[H ->]]].
  - rewrite roundQ_pos by lra. ring.
  - rewrite roundQ_zero by lra. reflexivity.
  - rewrite roundQ_neg by lra. apply Qopp_comp. apply nearest_comp; [lra|ring].
Qed.

Lemma roundQ_nonneg q : 0 <= q -> 0 <= roundQ q.
Proof.
  intros H. destruct (roundQ_cases q) as [[H' ->]|[[H' ->]|[H' ->]]].
  - lra.
  - lra.
  - apply nearest_nonneg, H'.
Qed.

Lemma roundQ_nonpos q : q <= 0 -> roundQ q <= 0.
Proof.
  intros H. destruct (roundQ_cases q) as [[H' ->]|[[H' ->]|[H' ->]]].
  - pose proof (nearest_nonneg (- q) ltac:(lra)). lra.
  - lra.
  - lra.
Qed.

Lemma roundQ_le q q' : q <= q' -> roundQ q <= roundQ q'.
Proof.
  intros H. destruct (roundQ_cases q) as [[H1 E1]|[[H1 E1]|[H1 E1]]].
  - destruct (roundQ_cases q') as [[H2 E2]|[[H2 E2]|[H2 E2]]].
    + rewrite E1, E2. apply Qopp_le_compat. apply nearest_mono; lra.
    + pose proof (roundQ_nonpos q ltac:(lra)). rewrite E2. exact H0.
    + pose proof (roundQ_nonpos q ltac:(lra)).
      pose proof (roundQ_nonneg q' ltac:(lra)). lra.
  - rewrite E1. apply roundQ_nonneg. lra.
  - rewrite E1, (roundQ_pos q') by lra. apply nearest_mono; assumption.
Qed.

Lemma roundQ_idem q : roundQ (roundQ q) == roundQ q.
Proof.
  destruct (roundQ_cases q) as [[H E]|[[H E]|[H E]]]; rewrite E.
  - pose proof (nearest_nonneg (- q) ltac:(lra)) as N.
    rewrite roundQ_opp. apply Qopp_comp.
    destruct (Qle_lt_or_eq _ _ N) as [P|Z].
    + rewrite roundQ_pos by exact P. apply nearest_idem; [lra|exact P].
    + rewrite roundQ_zero by (symmetry; exact Z). exact Z.
  - reflexivity.
  - pose proof (nearest_nonneg q H) as N.
    destruct (Qle_lt_or_eq _ _ N) as [P|Z].
    + rewrite roundQ_pos by exact P. apply nearest_idem; [lra|exact P].
    + rewrite roundQ_zero by (symmetry; exact Z). exact Z.
Qed.

Lemma roundQ_fixed (M e : Z) q :
  (-1074 <= e)%Z -> (Z.abs M < 2 ^ 53)%Z -> q == inject_Z M * pow2 e ->
  roundQ q == q.
Proof.
  intros He HM E. destruct (roundQ_cases q) as [[H ->]|[[H ->]|[H ->]]].
  - rewrite (nearest_fixed (- M) e); [ring|lra|exact He|lia|].
    rewrite inject_Z_opp, E. ring.
  - symmetry. exact H.
  - apply (nearest_fixed M e); [exact H|exact He|lia|exact E].
Qed.

Lemma roundQ_Z (z : Z) : (Z.abs z < 2 ^ 53)%Z -> roundQ (inject_Z z) == inject_Z z.
Proof.
  intros H. apply (roundQ_fixed z 0); [lia|exact H|].
  change (pow2 0) with 1. ring.
Qed.

(** The largest finite value. *)
Lemma MAX_pos : 0 < MAX.
Proof. apply Qlt_alt. vm_compute. reflexivity. Qed.

Lemma MAX_lt : MAX < pow2 1024.
Proof. apply Qlt_alt. vm_compute. reflexivity. Qed.

Lemma MAX_fixed : roundQ MAX == MAX.
Proof.
  apply (roundQ_fixed (2 ^ 53 - 1) 971); [lia|vm_compute; reflexivity|reflexivity].
Qed.

Lemma nearest_bounded q : 0 < q -> nearest q < pow2 1024 -> nearest q <= MAX.
Proof.
  intros Hq H. pose proof (mantissa_upper q Hq) as MU.
  pose proof (exponent_min q) as Emin.
  unfold nearest in *. set (e := exponent q) in *.
  set (M := rne (q / pow2 e)) in *. pose proof (pow2_pos e) as P.
  assert (M0 : (0 <= M)%Z).
  { apply rne_nonneg. apply Qlt_le_weak, scaled_pos, Hq. }
  assert (Q0 : 0 <= inject_Z M) by (change 0 with (inject_Z 0); rewrite <- Zle_Qle; exact M0).
  assert (Q1 : inject_Z M <= inject_Z (2 ^ 53)) by (rewrite <- Zle_Qle; exact MU).
  destruct (Z_le_gt_dec e 970) as [L|G].
  - pose proof (pow2_le e 970 L) as PL.
    apply Qle_trans with (inject_Z (2 ^ 53) * pow2 970).
    + apply Qle_trans with (inject_Z (2 ^ 53) * pow2 e).
      * apply Qmult_le_compat_r; [exact Q1|lra].
      * apply Qmult_le_l; [apply Qlt_alt; reflexivity|exact PL].
    + apply Qle_alt. vm_compute. discriminate.
  - assert (ML : (2 ^ 52 <= M)%Z).
    { apply mantissa_lower; [exact Hq|fold e; lia]. }
    assert (Q2 : inject_Z (2 ^ 52) <= inject_Z M) by (rewrite <- Zle_Qle; exact ML).
    destruct (Z.eq_dec e 971) as [E|N].
    + rewrite E in *.
      assert (S : (M < 2 ^ 53)%Z).
      { destruct (Z_lt_le_dec M (2 ^ 53)) as [A|A]; [exact A|exfalso].
        assert (M = 2 ^ 53)%Z by lia. rewrite H0 in H.
        apply Qlt_alt in H. vm_compute in H. discriminate H. }
      unfold MAX. apply Qmult_le_compat_r; [|lra].
      rewrite <- Zle_Qle. lia.
    + exfalso. assert (G' : (972 <= e)%Z) by lia.
      pose proof (pow2_le 972 e G') as PL.
      assert (B : pow2 1024 <= inject_Z M * pow2 e).
      { apply Qle_trans with (inject_Z (2 ^ 52) * pow2 972).
        - apply Qle_alt. vm_compute. discriminate.
        - apply Qle_trans with (inject_Z (2 ^ 52) * pow2 e).
          + apply Qmult_le_l; [apply Qlt_alt; reflexivity|exact PL].
          + apply Qmult_le_compat_r; [exact Q2|lra]. }
      lra.
Qed.

Lemma roundQ_bounded q :
  Qabs (roundQ q) < pow2 1024 -> - MAX <= roundQ q /\ roundQ q <= MAX.
Proof.
  intros H. pose proof MAX_pos as MP.
  destruct (roundQ_cases q) as [[Hq E]|[[Hq E]|[Hq E]]]; rewrite E in *.
  - pose proof (nearest_nonneg (- q) ltac:(lra)) as N.
    rewrite Qabs_opp, Qabs_pos in H by exact N.
    pose proof (nearest_bounded (- q) ltac:(lra) H). split; lra.
  - split; lra.
  - pose proof (nearest_nonneg q Hq) as N.
    rewrite Qabs_pos in H by exact N.
    pose proof (nearest_bounded q Hq H). split; lra.
Qed.

(** Clamping to the range of the finite values. *)
Lemma clamp_cases q :
  (q <= - MAX /\ clamp q = - MAX) \/
  (MAX <= q /\ clamp q = MAX) \/
  (- MAX < q /\ q < MAX /\ clamp q = q).
Proof.
  pose proof MAX_pos as MP. unfold clamp.
  destruct (Qle_bool q (- MAX)) eqn:E1.
  - left. apply Qle_bool_iff in E1. split; [exact E1|reflexivity].
  - destruct (Qle_bool MAX q) eqn:E2.
    + right. left. apply Qle_bool_iff in E2. split; [exact E2|reflexivity].
    + right. right.
      assert (~ q <= - MAX) by (intros C; apply Qle_bool_iff in C; congruence).
      assert (~ MAX <= q) by (intros C; apply Qle_bool_iff in C; congruence).
      split; [lra|]. split; [lra|reflexivity].
Qed.

Lemma clamp_bounds q : - MAX <= clamp q /\ clamp q <= MAX.
Proof.
  pose proof MAX_pos as MP.
  destruct (clamp_cases q) as [[H ->]|[[H ->]|[H1 [H2 ->]]]]; split; lra.
Qed.

Lemma clamp_id q : - MAX <= q -> q <= MAX -> clamp q == q.
Proof.
  intros H1 H2.
  destruct (clamp_cases q) as [[H ->]|[[H ->]|[_ [_ ->]]]]; lra.
Qed.

Lemma clamp_le q q' : q <= q' -> clamp q <= clamp q'.
Proof.
  intros H. pose proof MAX_pos as MP.
  destruct (clamp_cases q) as [[H1 ->]|[[H1 ->]|[H1 [H1' ->]]]];
    destruct (clamp_cases q') as [[H2 ->]|[[H2 ->]|[H2 [H2' ->]]]]; lra.
Qed.

Lemma clamp_comp q q' : q == q' -> clamp q == clamp q'.
Proof.
  intros E. apply Qle_antisym; apply clamp_le; lra.
Qed.

Lemma clamp_opp q : clamp (- q) == - clamp q.
Proof.
  pose proof MAX_pos as MP.
  destruct (clamp_cases q) as [[H1 ->]|[[H1 ->]|[H1 [H1' ->]]]];
    destruct (clamp_cases (- q)) as [[H2 ->]|[[H2 ->]|[H2 [H2' ->]]]]; lra.
Qed.

(** The nearest finite value: monotone and idempotent. *)
Lemma finite_bounds q : - MAX <= finite q /\ finite q <= MAX.
Proof.
  unfold finite. destruct (clamp_bounds q) as [L U].
  apply roundQ_le in L. apply roundQ_le in U.
  rewrite roundQ_opp in L. rewrite MAX_fixed in L, U. split; assumption.
Qed.

Lemma finite_le q q' : q <= q' -> finite q <= finite q'.
Proof. intros H. unfold finite. apply roundQ_le, clamp_le, H. Qed.

Lemma finite_comp q q' : q == q' -> finite q == finite q'.
Proof. intros H. unfold finite. apply roundQ_comp, clamp_comp, H. Qed.

Lemma finite_opp q : finite (- q) == - finite q.
Proof.
  unfold finite. rewrite (roundQ_comp _ _ (clamp_opp q)). apply roundQ_opp.
Qed.

Lemma finite_bounded q : - MAX <= q -> q <= MAX -> finite q == roundQ q.
Proof. intros H1 H2. unfold finite. apply roundQ_comp, clamp_id; assumption. Qed.

Lemma finite_double q : roundQ (finite q) == finite q.
Proof. unfold finite. apply roundQ_idem. Qed.

Lemma finite_idem q : finite (finite q) == finite q.
Proof.
  destruct (finite_bounds q) as [L U].
  rewrite (finite_bounded _ L U). apply finite_double.
Qed.

Lemma finite_fixed q : roundQ q == q -> - MAX <= q -> q <= MAX -> finite q == q.
Proof. intros H L U. rewrite (finite_bounded _ L U). exact H. Qed.

Lemma finite_roundQ q : overflows q = false -> finite (roundQ q) == roundQ q.
Proof.
  unfold overflows. intros H.
  assert (B : Qabs (roundQ q) < pow2 1024).
  { apply Qnot_le_lt. intros C. apply Qle_bool_iff in C. congruence. }
  destruct (roundQ_bounded q B) as [L U].
  apply finite_fixed; [apply roundQ_idem|exact L|exact U].
Qed.

Lemma finite_nonneg q : 0 <= q -> 0 <= finite q.
Proof.
  intros H. apply finite_le in H.
  assert (E : finite 0 == 0) by reflexivity. lra.
Qed.

Lemma finite_nonpos q : q <= 0 -> finite q <= 0.
Proof.
  intros H. apply finite_le in H.
  assert (E : finite 0 == 0) by reflexivity. lra.
Qed.

Lemma finite_not_overflows q : overflows (finite q) = false.
Proof.
  unfold overflows. destruct (finite_bounds q) as [L U].
  pose proof MAX_lt as ML.
  destruct (Qle_bool _ _) eqn:E; [|reflexivity]. apply Qle_bool_iff in E.
  rewrite finite_double in E.
  assert (Qabs (finite q) <= MAX) by (apply Qabs_Qle_condition; split; lra).
  lra.
Qed.

(** Decimals with one fractional digit. *)
Lemma tenths_scale (k : Z) : (k # 10) == inject_Z k * (1 # 10).
Proof. unfold Qeq, Qmult, inject_Z. simpl. lia. Qed.

Lemma Qfloor_half (n : Z) : Qfloor (inject_Z n + (1 # 2)) = n.
Proof.
  apply floor_unique; lra.
Qed.

Lemma MAX_Z : MAX == inject_Z ((2 ^ 53 - 1) * 2 ^ 971).
Proof. vm_compute. reflexivity. Qed.

Lemma tenths_bounded v :
  0 <= v -> v <= MAX -> (Qfloor (v * 10 + (1 # 2)) # 10) <= MAX.
Proof.
  intros H0 H. destruct (floor_bounds (v * 10 + (1 # 2))) as [L _].
  set (n := Qfloor (v * 10 + (1 # 2))) in *.
  rewrite tenths_scale.
  assert (Z : (n <= 10 * ((2 ^ 53 - 1) * 2 ^ 971))%Z).
  { apply Z.lt_succ_r. rewrite Zlt_Qlt. unfold Z.succ.
    rewrite inject_Z_plus, inject_Z_mult, <- MAX_Z.
    change (inject_Z 10) with 10. change (inject_Z 1) with 1. lra. }
  rewrite Zle_Qle, inject_Z_mult, <- MAX_Z in Z. change (inject_Z 10) with 10 in Z.
  lra.
Qed.

Lemma pow2_m3 : pow2 (-3) == 1 # 8.
Proof. reflexivity. Qed.

Lemma pow2_m4 : pow2 (-4) == 1 # 16.
Proof. reflexivity. Qed.

(** A binary64 value written with one decimal and read back is not always
    the same value, but it is written the same again. *)
Lemma tenths_stable v :
  0 <= v -> roundQ v == v -> v <= MAX ->
  let n := Qfloor (v * 10 + (1 # 2)) in
  Qfloor (finite (n # 10) * 10 + (1 # 2)) = n.
Proof.
  intros H0 HR HM. cbv zeta.
  pose proof (tenths_bounded v H0 HM) as QM.
  destruct (floor_bounds (v * 10 + (1 # 2))) as [L U].
  set (n := Qfloor (v * 10 + (1 # 2))) in *.
  assert (N0 : (0 <= n)%Z).
  { apply Z.lt_pred_le. rewrite Zlt_Qlt. unfold Z.pred.
    rewrite inject_Z_plus. change (inject_Z (-1)) with (-1).
    change (inject_Z 0) with 0. lra. }
  pose proof (tenths_scale n) as TS. set (q := n # 10) in *.
  destruct (Z.eq_dec n 0) as [Z|NZ].
  { unfold q. rewrite Z. reflexivity. }
  assert (Qn : 1 <= inject_Z n).
  { change 1 with (inject_Z 1). rewrite <- Zle_Qle. lia. }
  assert (Q0 : 0 < q) by lra.
  pose proof MAX_pos as MP.
  assert (F : finite q == nearest q).
  { rewrite finite_bounded by lra. rewrite roundQ_pos by exact Q0. reflexivity. }
  destruct (Z_lt_le_dec n (10 * 2 ^ 49)) as [A|B].
  - (* below 2^49 the spacing is at most 1/16 *)
    assert (QA : q < pow2 (-4 + 53)).
    { change (pow2 (-4 + 53)) with (inject_Z (2 ^ 49)).
      rewrite Zlt_Qlt, inject_Z_mult in A. change (inject_Z 10) with 10 in A. lra. }
    pose proof (exponent_below q (-4) Q0 ltac:(lia) QA) as E.
    pose proof (nearest_err q Q0) as Err.
    pose proof (pow2_le _ _ E) as PE. rewrite pow2_m4 in PE.
    apply Qabs_Qle_condition in Err. destruct Err as [E1 E2].
    pose proof (pow2_pos (exponent q)) as PP.
    assert (E1' : - (1 # 32) <= nearest q - q).
    { apply Qle_trans with (- (pow2 (exponent q) / 2)); [|exact E1].
      apply Qopp_le_compat. apply Qle_shift_div_r; lra. }
    assert (E2' : nearest q - q <= 1 # 32).
    { apply Qle_trans with (pow2 (exponent q) / 2); [exact E2|].
      apply Qle_shift_div_r; lra. }
    apply floor_unique; rewrite F; lra.
  - (* from 2^49 on the value read back is v itself *)
    assert (V49 : inject_Z (2 ^ 49) - (1 # 20) <= v).
    { rewrite Zle_Qle, inject_Z_mult in B. change (inject_Z 10) with 10 in B. lra. }
    assert (Vpos : 0 < v).
    { apply Qlt_le_trans with (inject_Z (2 ^ 49) - (1 # 20)); [|exact V49].
      apply Qlt_alt. reflexivity. }
    assert (NV : nearest v == v) by (rewrite <- roundQ_pos by exact Vpos; exact HR).
    assert (E4 : (-4 <= exponent v)%Z).
    { rewrite <- (exponent_repr (2 ^ 52) (-4)); [|lia|lia|left; lia].
      apply exponent_le.
      - apply Qlt_alt. reflexivity.
      - apply Qle_trans with (inject_Z (2 ^ 49) - (1 # 20)); [|exact V49].
        apply Qle_alt. vm_compute. discriminate. }
    unfold nearest in NV. set (e := exponent v) in *.
    set (M := rne (v / pow2 e)) in *. pose proof (pow2_pos e) as P.
    pose proof (exponent_upper v Vpos) as VU. fold e in VU.
    rewrite pow2_plus in VU. change (pow2 53) with (inject_Z (2 ^ 53)) in VU.
    assert (M53 : (M <= 2 ^ 53 - 1)%Z).
    { apply Z.lt_le_pred. rewrite Zlt_Qlt.
      apply Qmult_lt_r with (pow2 e); [exact P|]. lra. }
    assert (M52 : (2 ^ 52 <= M)%Z).
    { apply mantissa_lower; [exact Vpos|fold e; lia]. }
    assert (QM53 : inject_Z M <= inject_Z (2 ^ 53) - 1).
    { rewrite Zle_Qle in M53. unfold Z.sub in M53.
      rewrite inject_Z_plus in M53. exact M53. }
    assert (E3 : (-3 <= e)%Z).
    { destruct (Z.eq_dec e (-4)) as [E|E]; [exfalso|lia].
      rewrite E, pow2_m4 in *.
      assert (v <= (inject_Z (2 ^ 53) - 1) * (1 # 16)).
      { rewrite <- NV. apply Qmult_le_compat_r; [exact QM53|lra]. }
      change (inject_Z (2 ^ 53)) with (inject_Z (2 ^ 49) * 16) in H. lra. }
    pose proof (pow2_le _ _ E3) as P3. rewrite pow2_m3 in P3.
    assert (D1 : q - v <= 1 # 20) by lra.
    assert (D2 : v - q < 1 # 20) by lra.
    assert (Y : nearest q == v).
    { destruct (Z.compare_spec (exponent q) e) as [EQ|LT|GT].
      - rewrite <- NV. rewrite <- EQ. apply nearest_near; [exact Q0|].
        rewrite EQ, NV.
        apply Qlt_le_trans with (1 # 16).
        + apply Qabs_Qlt_condition. split; lra.
        + apply Qle_shift_div_l; lra.
      - exfalso.
        pose proof (exponent_upper q Q0) as QU.
        assert (QB : q < pow2 (e + 52)).
        { apply Qlt_le_trans with (pow2 (exponent q + 53)); [exact QU|].
          apply pow2_le. lia. }
        rewrite pow2_plus in QB. change (pow2 52) with (inject_Z (2 ^ 52)) in QB.
        assert (M = 2 ^ 52)%Z.
        { destruct (Z.eq_dec M (2 ^ 52)) as [Y|Nn]; [exact Y|exfalso].
          assert (M1 : (2 ^ 52 + 1 <= M)%Z) by lia.
          rewrite Zle_Qle, inject_Z_plus in M1. change (inject_Z 1) with 1 in M1.
          assert ((inject_Z (2 ^ 52) + 1) * pow2 e <= v).
          { rewrite <- NV. apply Qmult_le_compat_r; [exact M1|lra]. }
          lra. }
        rewrite H in NV.
        assert (VZ : v == inject_Z (2 ^ (e + 52))).
        { rewrite <- NV. change (inject_Z (2 ^ 52)) with (pow2 52).
          rewrite <- pow2_plus, <- pow2_Z by lia.
          replace (52 + e)%Z with (e + 52)%Z by ring. reflexivity. }
        assert (NE : n = (10 * 2 ^ (e + 52))%Z).
        { unfold n. rewrite <- (Qfloor_half (10 * 2 ^ (e + 52))).
          apply Qfloor_comp. rewrite VZ, inject_Z_mult.
          change (inject_Z 10) with 10. ring. }
        rewrite NE, inject_Z_mult, <- VZ in TS. change (inject_Z 10) with 10 in TS.
        lra.
      - exfalso.
        assert (QL : pow2 (exponent q + 52) <= q).
        { apply exponent_lower; [exact Q0|lia]. }
        assert (QB : pow2 (e + 53) <= q).
        { apply Qle_trans with (pow2 (exponent q + 52)); [|exact QL].
          apply pow2_le. lia. }
        rewrite pow2_plus in QB. change (pow2 53) with (inject_Z (2 ^ 53)) in QB.
        assert (v <= (inject_Z (2 ^ 53) - 1) * pow2 e).
        { rewrite <- NV. apply Qmult_le_compat_r; [exact QM53|lra]. }
        lra. }
    rewrite F. apply Qfloor_comp. rewrite Y. reflexivity.
Qed.

(** The rounding error: relative 2^-53, or half of the least subnormal. *)
Lemma nearest_error q :
  0 < q -> Qabs (nearest q - q) <= q * pow2 (-53) + pow2 (-1075).
Proof.
  intros Hq. pose proof (nearest_err q Hq) as E.
  pose proof (pow2_pos (-53)) as P53. pose proof (pow2_pos (-1075)) as P1075.
  apply Qle_trans with (pow2 (exponent q) / 2); [exact E|].
  assert (H2 : forall e, pow2 e / 2 == pow2 (e - 1)).
  { intros e. rewrite pow2_minus. reflexivity. }
  rewrite H2. unfold exponent.
  destruct (Z.max_spec (-1074) (ilog2 q - 52)) as [[_ ->]|[_ ->]].
  - destruct (ilog2_spec q Hq) as [L _].
    replace (ilog2 q - 52 - 1)%Z with (ilog2 q + -53)%Z by ring.
    rewrite pow2_plus.
    assert (pow2 (ilog2 q) * pow2 (-53) <= q * pow2 (-53)).
    { apply Qmult_le_compat_r; [exact L|lra]. }
    lra.
  - change (pow2 (-1074 - 1)) with (pow2 (-1075)).
    assert (0 <= q * pow2 (-53)) by (apply Qmult_le_0_compat; lra).
    lra.
Qed.

Lemma roundQ_error q :
  Qabs (roundQ q - q) <= Qabs q * pow2 (-53) + pow2 (-1075).
Proof.
  pose proof (pow2_pos (-1075)) as P1075.
  destruct (roundQ_cases q) as [[H ->]|[[H ->]|[H ->]]].
  - rewrite (Qabs_neg q) by lra.
    setoid_replace (- nearest (- q) - q) with (- (nearest (- q) - - q)) by ring.
    rewrite Qabs_opp. apply nearest_error. lra.
  - setoid_replace (0 - q) with 0 by lra.
    assert (0 <= Qabs q * pow2 (-53)).
    { apply Qmult_le_0_compat; [apply Qabs_nonneg|apply Qlt_le_weak, pow2_pos]. }
    change (Qabs 0) with 0. lra.
  - rewrite (Qabs_pos q) by lra. apply nearest_error, H.
Qed.

End Rounding.

(** ** Numbers *)

Section Numbers.
Import Binary64 JS Spec.

Lemma Qltb_lt (x y : Q) : Qltb x y = true <-> x < y.
Proof.
  unfold Qltb. rewrite negb_true_iff. split.
  - intros H. apply Qnot_le_lt. intros C. apply Qle_bool_iff in C. congruence.
  - intros H. destruct (Qle_bool y x) eqn:E; [|reflexivity].
    apply Qle_bool_iff in E. exfalso. exact (Qlt_not_le _ _ H E).
Qed.

Lemma Qltb_ge (x y : Q) : Qltb x y = false <-> y <= x.
Proof.
  unfold Qltb. rewrite negb_false_iff. apply Qle_bool_iff.
Qed.

Lemma Qltb_comp (x x' y y' : Q) : x == x' -> y == y' -> Qltb x y = Qltb x' y'.
Proof.
  intros Ex Ey. destruct (Qltb x' y') eqn:E.
  - apply Qltb_lt in E. apply Qltb_lt. lra.
  - apply Qltb_ge in E. apply Qltb_ge. lra.
Qed.

(** The value of [Finite q] is a finite binary64 value. *)
Lemma real_bounds (q : Q) : - MAX <= real q /\ real q <= MAX.
Proof. apply finite_bounds. Qed.

Lemma real_le (x y : Q) : x <= y -> real x <= real y.
Proof. apply finite_le. Qed.

Lemma real_comp (x y : Q) : x == y -> real x == real y.
Proof. apply finite_comp. Qed.

Lemma real_real (q : Q) : real (real q) == real q.
Proof. apply finite_idem. Qed.

Lemma real_opp (q : Q) : real (- q) == - real q.
Proof. apply finite_opp. Qed.

Lemma real_zero : real 0 == 0.
Proof. reflexivity. Qed.

Lemma real_double (q : Q) : roundQ (real q) == real q.
Proof. apply finite_double. Qed.

(** A rational within the range of the finite values does not overflow. *)
Lemma overflows_bounded (q : Q) : - MAX <= q -> q <= MAX -> overflows q = false.
Proof.
  intros L U. unfold overflows. pose proof MAX_lt as ML.
  apply roundQ_le in L. apply roundQ_le in U.
  rewrite roundQ_opp in L. rewrite MAX_fixed in L, U.
  destruct (Qle_bool _ _) eqn:E; [|reflexivity]. apply Qle_bool_iff in E.
  assert (Qabs (roundQ q) <= MAX) by (apply Qabs_Qle_condition; split; lra).
  lra.
Qed.

(** The result of an operation, when it is finite, is its own value. *)
Lemma binary64_cases (q : Q) :
  (overflows q = true /\ binary64 q = Infinity (Qltb q 0)) \/
  (overflows q = false /\ binary64 q = Finite (roundQ q) /\
   real (roundQ q) == roundQ q).
Proof.
  unfold binary64. destruct (overflows q) eqn:E.
  - left. split; reflexivity.
  - right. split; [reflexivity|]. split; [reflexivity|].
    apply finite_roundQ, E.
Qed.

Lemma binary64_bounded (q : Q) :
  - MAX <= q -> q <= MAX ->
  binary64 q = Finite (roundQ q) /\ real (roundQ q) == roundQ q.
Proof.
  intros L U.
  destruct (binary64_cases q) as [[O _]|[_ H]]; [|exact H].
  rewrite (overflows_bounded q L U) in O. discriminate O.
Qed.

(** The integer [toFixed] picks is within one half of ten times the value. *)
Lemma nearest_tenth (q : Q) :
  Qabs ((Qfloor (q * 10 + (1 # 2)) # 10) - q) <= 1 # 20.
Proof.
  pose proof (Qfloor_le (q * 10 + (1 # 2))) as Hlo.
  pose proof (Qlt_floor (q * 10 + (1 # 2))) as Hhi.
  rewrite inject_Z_plus in Hhi. change (inject_Z 1) with 1 in Hhi.
  rewrite tenths_scale.
  set (n := inject_Z (Qfloor (q * 10 + (1 # 2)))) in *.
  apply Qabs_Qle_condition. split; lra.
Qed.

Lemma tenths_opp (k : Z) : (- k # 10) == - (k # 10).
Proof. unfold Qeq, Qopp. simpl. lia. Qed.

Lemma tenths_near (v : Q) : Qabs ((tenths v # 10) - v) <= 1 # 20.
Proof.
  unfold tenths. destruct (Qltb v 0) eqn:E; [|apply nearest_tenth].
  pose proof (nearest_tenth (- v)) as H.
  rewrite tenths_opp.
  apply Qabs_Qle_condition in H. apply Qabs_Qle_condition.
  destruct H as [H1 H2]. split; lra.
Qed.

Lemma tenths_comp (v v' : Q) : v == v' -> tenths v = tenths v'.
Proof.
  intros E. unfold tenths.
  rewrite (Qltb_comp v v' 0 0 E (Qeq_refl 0)).
  destruct (Qltb v' 0).
  - f_equal. apply Qfloor_comp. rewrite E. reflexivity.
  - apply Qfloor_comp. rewrite E. reflexivity.
Qed.

Lemma tenths_le (v v' : Q) : v <= v' -> (tenths v <= tenths v')%Z.
Proof.
  intros H. unfold tenths.
  destruct (Qltb v 0) eqn:Ex, (Qltb v' 0) eqn:Ey.
  - apply Z.opp_le_mono. rewrite !Z.opp_involutive.
    apply Qfloor_resp_le. lra.
  - apply Qltb_lt in Ex. apply Qltb_ge in Ey.
    assert (A : (0 <= Qfloor (- v * 10 + (1 # 2)))%Z).
    { change 0%Z with (Qfloor 0). apply Qfloor_resp_le. lra. }
    assert (B : (0 <= Qfloor (v' * 10 + (1 # 2)))%Z).
    { change 0%Z with (Qfloor 0). apply Qfloor_resp_le. lra. }
    lia.
  - apply Qltb_ge in Ex. apply Qltb_lt in Ey. exfalso. lra.
  - apply Qfloor_resp_le. lra.
Qed.

(** The decimal written for a finite binary64 value is in range. *)
Lemma tenths_in_range (v : Q) :
  - MAX <= v -> v <= MAX ->
  - MAX <= (tenths v # 10) /\ (tenths v # 10) <= MAX.
Proof.
  intros L U. pose proof MAX_pos as MP. unfold tenths.
  destruct (Qltb v 0) eqn:E.
  - apply Qltb_lt in E.
    pose proof (tenths_bounded (- v) ltac:(lra) ltac:(lra)) as B.
    assert (N : 0 <= (Qfloor (- v * 10 + (1 # 2)) # 10)).
    { rewrite tenths_scale.
      assert (0 <= inject_Z (Qfloor (- v * 10 + (1 # 2)))).
      { change 0 with (inject_Z 0). rewrite <- Zle_Qle.
        change 0%Z with (Qfloor 0). apply Qfloor_resp_le. lra. }
      lra. }
    rewrite tenths_opp. split; lra.
  - apply Qltb_ge in E.
    pose proof (tenths_bounded v E U) as B.
    assert (N : 0 <= (Qfloor (v * 10 + (1 # 2)) # 10)).
    { rewrite tenths_scale.
      assert (0 <= inject_Z (Qfloor (v * 10 + (1 # 2)))).
      { change 0 with (inject_Z 0). rewrite <- Zle_Qle.
        change 0%Z with (Qfloor 0). apply Qfloor_resp_le. lra. }
      lra. }
    split; lra.
Qed.

(** [parseFloat(x.toFixed(1))] of a finite [x] is the decimal with one
    fractional digit that [toFixed] writes for the value of [x]. *)
Lemma toFixed1_tenths (q : Q) :
  parseFloat (toFixed1 (Finite q)) = Finite (tenths (real q) # 10).
Proof.
  destruct (real_bounds q) as [L U].
  destruct (tenths_in_range (real q) L U) as [TL TU].
  unfold tenths in *. unfold toFixed1. cbv zeta.
  destruct (Qltb (real q) 0); cbn [parseFloat]; cbv zeta;
    rewrite (overflows_bounded _ TL TU); reflexivity.
Qed.

(** It is a number of tenths at distance at most one twentieth from the
    value of [x]. *)
Lemma toFixed1_rounds (q : Q) :
  exists k : Z,
    parseFloat (toFixed1 (Finite q)) = Finite (k # 10) /\
    Qabs ((k # 10) - real q) <= 1 # 20.
Proof.
  exists (tenths (real q)). split; [apply toFixed1_tenths|apply tenths_near].
Qed.

(** Rounding to one decimal keeps what kind of number it is. *)
Lemma rounded_isNaN (x : number) : isNaN (parseFloat (toFixed1 x)) = isNaN x.
Proof.
  destruct x as [|s|q]; [reflexivity|reflexivity|].
  rewrite toFixed1_tenths. reflexivity.
Qed.

(** The difference of two finite numbers is a number. *)
Lemma sub_Finite_isNaN (x y : Q) : isNaN (sub (Finite x) (Finite y)) = false.
Proof.
  cbn [sub]. unfold binary64. destruct (overflows _); reflexivity.
Qed.

Lemma lt_not_ge (a b : number) : lt a b = true -> ge a b = false.
Proof.
  unfold ge. destruct a as [|s|x], b as [|s'|y]; cbn [lt le]; try discriminate;
    try (destruct s; try destruct s'; simpl; congruence).
  - destruct s'; simpl; congruence.
  - intros H. apply Qltb_lt in H.
    destruct (Qle_bool (real y) (real x)) eqn:E; [|reflexivity].
    apply Qle_bool_iff in E. exfalso. exact (Qlt_not_le _ _ H E).
Qed.

Lemma gt_not_le (a b : number) : gt a b = true -> le a b = false.
Proof. unfold gt. intros H. exact (lt_not_ge b a H). Qed.

Lemma not_ge_lt (a b : number) :
  isNaN a = false -> isNaN b = false -> ge a b = false -> lt a b = true.
Proof.
  unfold ge. destruct a as [|s|x], b as [|s'|y]; cbn [lt le isNaN];
    try discriminate;
    try (destruct s; try destruct s'; simpl; congruence).
  - destruct s'; simpl; congruence.
  - intros _ _ H. unfold Qltb. rewrite H. reflexivity.
Qed.

Lemma not_le_gt (a b : number) :
  isNaN a = false -> isNaN b = false -> le a b = false -> gt a b = true.
Proof. intros Ha Hb H. unfold gt. apply not_ge_lt; assumption. Qed.

Lemma le_lt_trans (a b c : number) :
  le a b = true -> lt b c = true -> lt a c = true.
Proof.
  destruct a as [|s|x], b as [|s'|y], c as [|s''|z]; cbn [lt le];
    try discriminate;
    try (destruct s; try destruct s'; try destruct s''; simpl; congruence);
    try (destruct s'; try destruct s''; simpl; congruence);
    try (destruct s''; simpl; congruence).
  intros H1 H2. apply Qle_bool_iff in H1. apply Qltb_lt in H2.
  apply Qltb_lt. exact (Qle_lt_trans _ _ _ H1 H2).
Qed.

Lemma lt_irrefl (a : number) : lt a a = false.
Proof.
  destruct a as [|s|x]; cbn [lt]; [reflexivity|destruct s; reflexivity|].
  apply Qltb_ge. apply Qle_refl.
Qed.

Lemma lt_le (a b : number) : lt a b = true -> le a b = true.
Proof.
  destruct a as [|s|x], b as [|s'|y]; cbn [lt le]; try discriminate;
    try (destruct s; try destruct s'; simpl; congruence).
  - destruct s'; simpl; congruence.
  - intros H. apply Qltb_lt in H. apply Qle_bool_iff. apply Qlt_le_weak, H.
Qed.

(** Below the lower end of a band is not above its upper end. *)
Lemma below_not_above (d lo hi : number) :
  le lo hi = true -> lt d lo = true -> gt d hi = false.
Proof.
  intros Hband Hlo. unfold gt. destruct (lt hi d) eqn:E; [|reflexivity].
  pose proof (le_lt_trans lo hi d Hband E) as H.
  apply lt_le in H. apply lt_not_ge in Hlo. unfold ge in Hlo. congruence.
Qed.

End Numbers.

(** ** The measurement classifier *)

Section Classifier.
Import Binary64 JS Recommendations Spec.
Local Open Scope string_scope.

Lemma own_In {A : Type} (o : list (string * A)) (key : string) (v : A) :
  own o key = Some v -> In v (map snd o).
Proof.
  induction o as [|[k w] o IH]; simpl; [discriminate|].
  destruct (k =? key); [intros [= ->]; left; reflexivity|].
  intros H. right. exact (IH H).
Qed.

(** The band read for a fabric type is an own entry of the table (for a
    key with no property at all, the normal one), or else the key names an
    inherited member and that member is read. *)
Lemma configFor_cases (fabricType : string) :
  (exists band, In band (map snd FABRIC_EASE_CONFIGS) /\
                configFor fabricType = Config band) \/
  (inherited fabricType = true /\ configFor fabricType = Builtin fabricType).
Proof.
  unfold configFor, get.
  destruct (own FABRIC_EASE_CONFIGS fabricType) as [band|] eqn:E.
  - left. exists band. split; [exact (own_In _ _ _ E)|reflexivity].
  - destruct (inherited fabricType).
    + right. split; reflexivity.
    + left. eexists. split; [|reflexivity]. simpl; tauto.
Qed.

(** The fields of the configured bands are numbers, the perfect range is
    not empty. *)
Lemma band_sound (band : FabricEaseConfig.t) :
  In band (map snd FABRIC_EASE_CONFIGS) ->
  isNaN (FabricEaseConfig.perfectMin band) = false /\
  isNaN (FabricEaseConfig.perfectMax band) = false /\
  le (FabricEaseConfig.perfectMin band) (FabricEaseConfig.perfectMax band)
  = true.
Proof.
  simpl. intros [<-|[<-|[<-|[]]]]; repeat split.
Qed.

(** The function body once the band is known. *)
Lemma calculateFitStatus_Config (userValue chartValue : number)
  (fabricType : string) (band : FabricEaseConfig.t) :
  configFor fabricType = Config band ->
  let difference := parseFloat (toFixed1 (sub chartValue userValue)) in
  let lo := FabricEaseConfig.perfectMin band in
  let hi := FabricEaseConfig.perfectMax band in
  calculateFitStatus userValue chartValue fabricType
  = Some (FitStatus.make
            (if ge difference lo && le difference hi then "perfect"
             else if lt difference lo then "tight"
             else if gt difference hi then "loose"
             else "good")
            difference).
Proof.
  intros H. unfold calculateFitStatus, calculateFitStatusIn. cbv zeta.
  change (or_else (get FABRIC_EASE_CONFIGS fabricType)
            (get FABRIC_EASE_CONFIGS "normal")) with (configFor fabricType).
  rewrite H. cbn [read].
  destruct (ge _ _); [destruct (le _ _)|]; cbn [andb];
    try reflexivity; destruct (lt _ _); try reflexivity;
    destruct (gt _ _); reflexivity.
Qed.

(** The function body when the key names an inherited member: every
    comparison fails. *)
Lemma calculateFitStatus_Builtin (userValue chartValue : number)
  (fabricType : string) :
  configFor fabricType = Builtin fabricType ->
  calculateFitStatus userValue chartValue fabricType
  = Some (FitStatus.make "good"
            (parseFloat (toFixed1 (sub chartValue userValue)))).
Proof.
  intros H. unfold calculateFitStatus, calculateFitStatusIn. cbv zeta.
  change (or_else (get FABRIC_EASE_CONFIGS fabricType)
            (get FABRIC_EASE_CONFIGS "normal")) with (configFor fabricType).
  rewrite H. cbn [read]. unfold ge, gt.
  destruct (parseFloat _) as [|s|q]; reflexivity.
Qed.

(** [calculateFitStatus] never throws, and its status is one of four. *)
Lemma calculateFitStatus_total (userValue chartValue : number)
  (fabricType : string) :
  exists r,
    calculateFitStatus userValue chartValue fabricType = Some r /\
    In (FitStatus.status r) statuses /\
    FitStatus.difference r = parseFloat (toFixed1 (sub chartValue userValue)).
Proof.
  destruct (configFor_cases fabricType) as [[band [_ H]]|[_ H]].
  - rewrite (calculateFitStatus_Config _ _ _ _ H). eexists. split; [reflexivity|].
    split; [|reflexivity]. cbn [FitStatus.status]. unfold statuses.
    destruct (_ && _); [simpl; tauto|].
    destruct (lt _ _); [simpl; tauto|].
    destruct (gt _ _); simpl; tauto.
  - rewrite (calculateFitStatus_Builtin _ _ _ H). eexists. split; [reflexivity|].
    split; [|reflexivity]. simpl; tauto.
Qed.

(** A fabric type that names no property of the table, own or inherited,
    is classified with the normal band. *)
Lemma calculateFitStatus_unknown_fabric (userValue chartValue : number)
  (fabricType : string) :
  own FABRIC_EASE_CONFIGS fabricType = None ->
  inherited fabricType = false ->
  calculateFitStatus userValue chartValue fabricType
  = calculateFitStatus userValue chartValue "normal".
Proof.
  intros Hown Hinh.
  assert (H : configFor fabricType = configFor "normal").
  { unfold configFor, get at 1. rewrite Hown, Hinh. reflexivity. }
  unfold calculateFitStatus, calculateFitStatusIn. cbv zeta.
  change (or_else (get FABRIC_EASE_CONFIGS fabricType)
            (get FABRIC_EASE_CONFIGS "normal")) with (configFor fabricType).
  change (or_else (get FABRIC_EASE_CONFIGS "normal")
            (get FABRIC_EASE_CONFIGS "normal")) with (configFor "normal").
  rewrite H. reflexivity.
Qed.

(** With finite measurements and a band of the table the fallback status
    is not reached. *)
Lemma calculateFitStatus_finite (x y : Q) (fabricType : string)
  (band : FabricEaseConfig.t) :
  configFor fabricType = Config band ->
  exists r,
    calculateFitStatus (Finite x) (Finite y) fabricType = Some r /\
    In (FitStatus.status r) ["perfect"; "tight"; "loose"].
Proof.
  intros H. rewrite (calculateFitStatus_Config _ _ _ _ H).
  eexists. split; [reflexivity|]. cbn [FitStatus.status].
  destruct (configFor_cases fabricType) as [[band' [Hin H']]|[_ H']];
    [|congruence].
  assert (band' = band) by congruence. subst band'.
  destruct (band_sound band Hin) as [Hlo [Hhi _]].
  assert (Hd : isNaN (parseFloat (toFixed1 (sub (Finite y) (Finite x)))) = false).
  { rewrite rounded_isNaN. apply sub_Finite_isNaN. }
  set (d := parseFloat (toFixed1 (sub (Finite y) (Finite x)))) in *.
  destruct (ge _ _) eqn:E1; [destruct (le _ _) eqn:E2|]; cbn [andb].
  - simpl; tauto.
  - apply not_le_gt in E2; [|exact Hd|exact Hhi].
    destruct (lt _ _); [simpl; tauto|]. rewrite E2. simpl; tauto.
  - apply not_ge_lt in E1; [|exact Hd|exact Hlo]. rewrite E1. simpl; tauto.
Qed.

(** Two properties that are the same kind of value and, as bands, agree on
    the two fields the comparisons read. *)
Lemma sameDecision_get (configs configs' : list (string * FabricEaseConfig.t))
  (key : string) :
  sameDecisionFields configs configs' ->
  match get configs key, get configs' key with
  | Undefined, Undefined => True
  | Builtin n, Builtin n' => n = n'
  | Config b, Config b' =>
      FabricEaseConfig.perfectMin b = FabricEaseConfig.perfectMin b' /\
      FabricEaseConfig.perfectMax b = FabricEaseConfig.perfectMax b'
  | _, _ => False
  end.
Proof.
  unfold get. induction 1 as [|[k b] [k' b'] T T' [Hk [Hlo Hhi]] _ IH].
  - simpl. destruct (inherited key); trivial.
  - simpl in Hk, Hlo, Hhi. subst k'. simpl.
    destruct (k =? key); [split; assumption|exact IH].
Qed.

Lemma sameDecision_read (configs configs' : list (string * FabricEaseConfig.t))
  (key : string) :
  sameDecisionFields configs configs' ->
  let config := or_else (get configs key) (get configs "normal") in
  let config' := or_else (get configs' key) (get configs' "normal") in
  read FabricEaseConfig.perfectMin config
  = read FabricEaseConfig.perfectMin config' /\
  read FabricEaseConfig.perfectMax config
  = read FabricEaseConfig.perfectMax config'.
Proof.
  intros H. pose proof (sameDecision_get _ _ key H) as Hk.
  pose proof (sameDecision_get _ _ "normal" H) as Hn. cbv zeta.
  destruct (get configs key), (get configs' key); try contradiction;
    cbn [or_else read].
  - destruct (get configs "normal"), (get configs' "normal");
      try contradiction; cbn [read]; try (split; reflexivity).
    destruct Hn as [-> ->]. split; reflexivity.
  - destruct Hk as [-> ->]. split; reflexivity.
  - split; reflexivity.
Qed.

(** [tightThreshold] and [looseThreshold] play no part: a table that differs
    from another in these fields only gives the same results. *)
Lemma calculateFitStatusIn_decision_fields
  (configs configs' : list (string * FabricEaseConfig.t))
  (userValue chartValue : number) (fabricType : string) :
  sameDecisionFields configs configs' ->
  calculateFitStatusIn configs userValue chartValue fabricType
  = calculateFitStatusIn configs' userValue chartValue fabricType.
Proof.
  intros H. destruct (sameDecision_read _ _ fabricType H) as [Hlo Hhi].
  unfold calculateFitStatusIn. cbv zeta. rewrite Hlo, Hhi. reflexivity.
Qed.

(** The difference reported for two finite measurements: the decimal that
    [toFixed(1)] writes for their rounded difference, or an infinity when
    the difference overflows. *)
Lemma difference_Finite (x y : Q) :
  let delta := roundQ (real y - real x) in
  let d := parseFloat (toFixed1 (sub (Finite y) (Finite x))) in
  (overflows (real y - real x) = false ->
   d = Finite (tenths delta # 10) /\
   Qabs ((tenths delta # 10) - delta) <= 1 # 20) /\
  (overflows (real y - real x) = true ->
   d = Infinity (Qltb (real y - real x) 0)).
Proof.
  cbv zeta. cbn [sub].
  destruct (binary64_cases (real y - real x)) as [[O ->]|[O [-> R]]];
    rewrite O; split; try discriminate; intros _.
  - reflexivity.
  - rewrite toFixed1_tenths, (tenths_comp _ _ R).
    split; [reflexivity|apply tenths_near].
Qed.

(** C1, amended: for a fabric type whose band is an entry of the table
    (rigid, normal, stretchy, or the normal band for a key that names no
    property), [calculateFitStatus] returns [parseFloat] of [toFixed(1)] of
    chartValue - userValue as the difference.  For finite measurements the
    subtraction gives delta, the binary64 value nearest to the exact
    difference of the two values (within a relative error of 2^-53, or half
    of the least subnormal value), and the reported difference is the
    decimal with one fractional digit nearest to delta (of two, the one away
    from zero), within one twentieth of delta; when delta is out of range
    the reported difference is the infinity of its sign.  When the
    difference is [NaN] the status is the fallback "good".  Otherwise the
    status is "perfect" exactly when perfectMin <= difference <= perfectMax,
    "tight" exactly when difference < perfectMin, and "loose" exactly when
    difference > perfectMax, one of the three holding.  The result is the
    same under every table that agrees with the configured one on
    perfectMin and perfectMax, whatever its tightThreshold and
    looseThreshold. *)
Theorem calculateFitStatus_decision (userValue chartValue : number)
  (fabricType : string) (band : FabricEaseConfig.t) :
  configFor fabricType = Config band ->
  exists r,
    calculateFitStatus userValue chartValue fabricType = Some r /\
    let d := FitStatus.difference r in
    let lo := FabricEaseConfig.perfectMin band in
    let hi := FabricEaseConfig.perfectMax band in
    d = parseFloat (toFixed1 (sub chartValue userValue)) /\
    (forall x y, userValue = Finite x -> chartValue = Finite y ->
       let delta := roundQ (real y - real x) in
       Qabs (delta - (real y - real x))
       <= Qabs (real y - real x) * pow2 (-53) + pow2 (-1075) /\
       (overflows (real y - real x) = false ->
        sub chartValue userValue = Finite delta /\
        d = Finite (tenths delta # 10) /\
        Qabs ((tenths delta # 10) - delta) <= 1 # 20) /\
       (overflows (real y - real x) = true ->
        d = Infinity (Qltb (real y - real x) 0))) /\
    (isNaN d = true -> FitStatus.status r = "good") /\
    (isNaN d = false ->
       (FitStatus.status r = "perfect" <->
        ge d lo = true /\ le d hi = true) /\
       (FitStatus.status r = "tight" <-> lt d lo = true) /\
       (FitStatus.status r = "loose" <-> gt d hi = true) /\
       In (FitStatus.status r) ["perfect"; "tight"; "loose"]) /\
    (forall configs',
       sameDecisionFields FABRIC_EASE_CONFIGS configs' ->
       calculateFitStatusIn configs' userValue chartValue fabricType
       = Some r).
Proof.
  intros H. pose proof (calculateFitStatus_Config userValue chartValue _ _ H)
    as E. cbv zeta in E.
  eexists. split; [exact E|]. cbv zeta. cbn [FitStatus.status FitStatus.difference].
  destruct (configFor_cases fabricType) as [[band' [Hin H']]|[_ H']];
    [|congruence].
  assert (band' = band) by congruence. subst band'.
  destruct (band_sound band Hin) as [Hlo [Hhi Hband]].
  split; [reflexivity|]. split; [|split; [|split]].
  - intros x y -> ->. destruct (difference_Finite x y) as [F I].
    split; [apply roundQ_error|].
    split; [|exact I]. intros O. destruct (F O) as [F1 F2].
    split; [|split; [exact F1|exact F2]].
    cbn [sub]. unfold binary64. rewrite O. reflexivity.
  - set (d := parseFloat (toFixed1 (sub chartValue userValue))) in *.
    set (lo := FabricEaseConfig.perfectMin band) in *.
    set (hi := FabricEaseConfig.perfectMax band) in *.
    intros Hd. destruct d; try discriminate Hd. unfold ge, gt.
    destruct lo, hi; reflexivity.
  - set (d := parseFloat (toFixed1 (sub chartValue userValue))) in *.
    set (lo := FabricEaseConfig.perfectMin band) in *.
    set (hi := FabricEaseConfig.perfectMax band) in *.
    intros Hd.
    destruct (ge d lo) eqn:E1; [destruct (le d hi) eqn:E2|]; cbn [andb].
    + pose proof (lt_not_ge d lo) as N1. pose proof (gt_not_le d hi) as N2.
      repeat split; try discriminate; try tauto.
      * intros L. apply N1 in L. congruence.
      * intros L. apply N2 in L. congruence.
      * simpl; tauto.
    + pose proof (not_le_gt d hi Hd Hhi E2) as G.
      assert (L : lt d lo = false).
      { destruct (lt d lo) eqn:L; [|reflexivity].
        apply lt_not_ge in L. congruence. }
      rewrite L, G. repeat split; try discriminate; try tauto.
      * intros [_ C]. discriminate C.
      * simpl; tauto.
    + pose proof (not_ge_lt d lo Hd Hlo E1) as L. rewrite L.
      pose proof (below_not_above d lo hi Hband L) as G.
      repeat split; try discriminate; try tauto.
      * intros [C _]. discriminate C.
      * intros C. congruence.
      * simpl; tauto.
  - intros configs' Hsame.
    rewrite <- (calculateFitStatusIn_decision_fields _ _ _ _ _ Hsame).
    exact E.
Qed.

Lemma calculateFitStatus_decision_witness :
  let band :=
    {| FabricEaseConfig.perfectMin := Finite (- 4);
       FabricEaseConfig.perfectMax := Finite 1;
       FabricEaseConfig.tightThreshold := Finite (- 6);
       FabricEaseConfig.looseThreshold := Finite 3 |} in
  let userValue := Finite 5 in
  let chartValue := Finite (95 # 100) in
  configFor "stretchy" = Config band /\
  exists r,
    calculateFitStatus userValue chartValue "stretchy" = Some r /\
    let d := FitStatus.difference r in
    let lo := FabricEaseConfig.perfectMin band in
    let hi := FabricEaseConfig.perfectMax band in
    d = parseFloat (toFixed1 (sub chartValue userValue)) /\
    (forall x y, userValue = Finite x -> chartValue = Finite y ->
       let delta := roundQ (real y - real x) in
       Qabs (delta - (real y - real x))
       <= Qabs (real y - real x) * pow2 (-53) + pow2 (-1075) /\
       (overflows (real y - real x) = false ->
        sub chartValue userValue = Finite delta /\
        d = Finite (tenths delta # 10) /\
        Qabs ((tenths delta # 10) - delta) <= 1 # 20) /\
       (overflows (real y - real x) = true ->
        d = Infinity (Qltb (real y - real x) 0))) /\
    (isNaN d = true -> FitStatus.status r = "good") /\
    (isNaN d = false ->
       (FitStatus.status r = "perfect" <->
        ge d lo = true /\ le d hi = true) /\
       (FitStatus.status r = "tight" <-> lt d lo = true) /\
       (FitStatus.status r = "loose" <-> gt d hi = true) /\
       In (FitStatus.status r) ["perfect"; "tight"; "loose"]) /\
    (forall configs',
       sameDecisionFields FABRIC_EASE_CONFIGS configs' ->
       calculateFitStatusIn configs' userValue chartValue "stretchy"
       = Some r).
Proof.
  cbv zeta. split; [reflexivity|].
  exact (calculateFitStatus_decision (Finite 5) (Finite (95 # 100)) "stretchy"
           _ eq_refl).
Defined.

(** The difference is rounded before it is written with one decimal: for a
    body value of 5 and a chart value of 0.95 the subtraction gives
    -4.04999999999999982, which is written -4.0 and is in the perfect range
    of stretchy fabric; the exact difference -4.05 would be written -4.1,
    which is below it. *)
Example calculateFitStatus_rounded_difference :
  calculateFitStatus (Finite 5) (Finite (95 # 100)) "stretchy"
  = Some (FitStatus.make "perfect" (Finite (-40 # 10))) /\
  roundQ (real (95 # 100) - real 5)
  == - (4559894622712627 # 1125899906842624) /\
  tenths ((95 # 100) - 5) = (-41)%Z.
Proof.
  split; [vm_compute; reflexivity|]. split; vm_compute; reflexivity.
Qed.

(** A table with other thresholds that agrees with the configured one on
    the fields the decision reads. *)
Example sameDecisionFields_other_thresholds :
  sameDecisionFields FABRIC_EASE_CONFIGS
    [ ("rigid", FabricEaseConfig.make (Finite 2) (Finite 4) (Finite 3) NaN);
      ("normal",
       FabricEaseConfig.make (Finite (-3 # 2)) (Finite 2) (Finite 100)
         (Finite (- 100)));
      ("stretchy",
       FabricEaseConfig.make (Finite (-4 # 1)) (Finite 1) (Infinity false)
         (Finite 0)) ].
Proof. repeat constructor. Qed.

(** C1, the claim as stated fails: with a user value that is [NaN], or
    with both values the same infinity, the difference is [NaN], no
    comparison holds and the status is the fallback "good", which is none of
    perfect, tight and loose. *)
Lemma calculateFitStatus_NaN_good :
  calculateFitStatus NaN (Finite 91) "normal"
  = Some (FitStatus.make "good" NaN) /\
  calculateFitStatus (Infinity false) (Infinity false) "normal"
  = Some (FitStatus.make "good" NaN) /\
  ~ In "good" ["perfect"; "tight"; "loose"].
Proof.
  split; [reflexivity|]. split; [reflexivity|].
  simpl. intros [H|[H|[H|[]]]]; discriminate H.
Qed.

(** C4, at the failing input: a fabric type that names a member inherited
    from [Object.prototype] is not classified with the normal band.  The
    lookup finds the inherited member, the fallback to the normal band is
    not taken, and every comparison fails. *)
Theorem calculateFitStatus_inherited_key :
  configFor "constructor" = Builtin "constructor" /\
  calculateFitStatus (Finite 90) (Finite 91) "constructor"
  = Some (FitStatus.make "good" (Finite (10 # 10))) /\
  calculateFitStatus (Finite 90) (Finite 91) "normal"
  = Some (FitStatus.make "perfect" (Finite (10 # 10))).
Proof. repeat split. Qed.

(** C9, at the failing input: with finite measurements the fallback status
    "good" is returned for a fabric type that names an inherited member. *)
Theorem calculateFitStatus_reaches_fallback :
  inherited "toString" = true /\
  exists r,
    calculateFitStatus (Finite 90) (Finite 85) "toString" = Some r /\
    FitStatus.status r = "good" /\
    ~ In (FitStatus.status r) ["perfect"; "tight"; "loose"].
Proof.
  split; [reflexivity|].
  rewrite (calculateFitStatus_Builtin (Finite 90) (Finite 85) "toString" eq_refl).
  eexists. split; [reflexivity|]. cbn [FitStatus.status].
  split; [reflexivity|].
  cbn [In]. intros [H|[H|[H|[]]]]; discriminate H.
Qed.

(** C5: the table holds exactly the bands rigid, normal and stretchy, with
    (tightThreshold, perfectMin, perfectMax, looseThreshold) equal to
    (0, 2, 4, 6), (-3, -1.5, 2, 4) and (-6, -4, 1, 3), and every band is
    ordered: tightThreshold <= perfectMin <= perfectMax <= looseThreshold. *)
Theorem FABRIC_EASE_CONFIGS_ordered :
  map fst FABRIC_EASE_CONFIGS = ["rigid"; "normal"; "stretchy"] /\
  own FABRIC_EASE_CONFIGS "rigid"
  = Some {| FabricEaseConfig.tightThreshold := Finite 0;
            FabricEaseConfig.perfectMin := Finite 2;
            FabricEaseConfig.perfectMax := Finite 4;
            FabricEaseConfig.looseThreshold := Finite 6 |} /\
  own FABRIC_EASE_CONFIGS "normal"
  = Some {| FabricEaseConfig.tightThreshold := Finite (-3 # 1);
            FabricEaseConfig.perfectMin := Finite (-3 # 2);
            FabricEaseConfig.perfectMax := Finite 2;
            FabricEaseConfig.looseThreshold := Finite 4 |} /\
  own FABRIC_EASE_CONFIGS "stretchy"
  = Some {| FabricEaseConfig.tightThreshold := Finite (-6 # 1);
            FabricEaseConfig.perfectMin := Finite (-4 # 1);
            FabricEaseConfig.perfectMax := Finite 1;
            FabricEaseConfig.looseThreshold := Finite 3 |} /\
  Forall
    (fun e =>
       le (FabricEaseConfig.tightThreshold (snd e))
          (FabricEaseConfig.perfectMin (snd e)) = true /\
       le (FabricEaseConfig.perfectMin (snd e))
          (FabricEaseConfig.perfectMax (snd e)) = true /\
       le (FabricEaseConfig.perfectMax (snd e))
          (FabricEaseConfig.looseThreshold (snd e)) = true)
    FABRIC_EASE_CONFIGS.
Proof.
  repeat split; repeat constructor.
Qed.

End Classifier.

(** ** Matching size-chart keys against the profile *)

Section KeyMatching.
Import JS Recommendations Spec.
Local Open Scope string_scope.





(** No entry makes the loop body throw. *)
Lemma compareEntry_total (profile : Profile) (fabricType : string)
  (comparisons : list Comparison.t) (entry : string * value) :
  exists comparisons',
    compareEntry profile fabricType comparisons entry = Some comparisons'.
Proof.
  destruct entry as [key v]. unfold compareEntry.
  destruct (key =? "size"); [eexists; reflexivity|].
  destruct (asNumber v) as [chartValue|]; [|eexists; reflexivity].
  destruct (profileNumber _ _) as [userValue|]; [|eexists; reflexivity].
  destruct (calculateFitStatus_total userValue chartValue fabricType)
    as [r [Hr _]].
  rewrite Hr. eexists; reflexivity.
Qed.






End KeyMatching.

(** ** The derived confidence of the page *)

Section Confidence.
Import JS Recommendations Spec.
Local Open Scope string_scope.

Lemma forEach_compareEntry_total (profile : Profile) (fabricType : string)
  (entries : list (string * value)) (comparisons : list Comparison.t) :
  exists comparisons',
    forEach (compareEntry profile fabricType) entries comparisons
    = Some comparisons'.
Proof.
  revert comparisons. induction entries as [|e entries IH]; intros comparisons.
  - eexists; reflexivity.
  - cbn [forEach].
    destruct (compareEntry_total profile fabricType comparisons e) as [c' ->].
    apply IH.
Qed.

Lemma measurementComparisons_total (profile : option Profile)
  (entries : list (string * value)) (fabricType : string) :
  exists comparisons,
    measurementComparisons profile entries fabricType = Some comparisons.
Proof.
  unfold measurementComparisons. destruct profile as [p|]; [|eexists; reflexivity].
  destruct (0 <? List.length entries)%nat; [|eexists; reflexivity].
  apply forEach_compareEntry_total.
Qed.

(** C7, the claim as stated fails: when no measurement is compared (no
    profile, or no size-chart key with a number on both sides) the
    confidence of the page is the one the recommendation came with, here
    "High", which is none of the four values. *)
Lemma actualConfidence_fallback_value :
  let recommendation :=
    Recommendation.make "M" "normal" "High"
      [ ("M", [("size", VString "M"); ("waist", VNumber (Finite 80))]) ] in
  actualConfidence recommendation None = Some "High" /\
  actualConfidence recommendation (Some [("chest", VNumber (Finite 90))])
  = Some "High" /\
  ~ In "High" confidences.
Proof.
  cbv zeta. split; [reflexivity|]. split; [reflexivity|].
  simpl. intros [H|[H|[H|[H|[]]]]]; discriminate H.
Qed.

(** C7, amended: for every recommendation (size chart, fabric type and
    supplied confidence) and every profile the page derives a confidence
    without error; when at least one measurement is compared it is one of
    Perfect, Good, Tight and Loose, and when none is compared it is the
    supplied confidence unchanged. *)
Theorem actualConfidence_values (recommendation : Recommendation.t)
  (profile : option Profile) :
  exists comparisons c,
    measurementComparisons profile (recommendedSizeMeasurements recommendation)
      (Recommendation.fabricType recommendation) = Some comparisons /\
    actualConfidence recommendation profile = Some c /\
    (comparisons = [] -> c = Recommendation.confidence recommendation) /\
    (comparisons <> [] -> In c confidences).
Proof.
  destruct (measurementComparisons_total profile
              (recommendedSizeMeasurements recommendation)
              (Recommendation.fabricType recommendation)) as [ms Hms].
  exists ms,
    (deriveActualConfidence ms (Recommendation.confidence recommendation)).
  split; [exact Hms|]. split.
  - unfold actualConfidence. rewrite Hms. reflexivity.
  - split.
    + intros ->. reflexivity.
    + intros Hne. unfold deriveActualConfidence, confidences.
      rewrite (length_eqb_0 ms Hne).
      destruct (existsb _ ms); [simpl; tauto|].
      destruct (existsb _ ms); [simpl; tauto|].
      destruct (forallb _ ms); simpl; tauto.
Qed.

End Confidence.

(** ** The range text of the size-comparison view *)

Section RangeText.
Import Binary64 JS Recommendations Spec.
Local Open Scope string_scope.

(** Under two fabric types the loop body adds details with the same chart
    values. *)
Lemma detailEntry_fabric (profile : Profile) (fabricType fabricType' : string)
  (details details' : list FitDetail.t) (entry : string * value) :
  map FitDetail.chartValue details = map FitDetail.chartValue details' ->
  exists next next',
    detailEntry profile fabricType details entry = Some next /\
    detailEntry profile fabricType' details' entry = Some next' /\
    map FitDetail.chartValue next = map FitDetail.chartValue next'.
Proof.
  intros H. destruct entry as [key v]. unfold detailEntry.
  destruct (key =? "size"); [exists details, details'; auto|].
  destruct (asNumber v) as [chartValue|]; [|exists details, details'; auto].
  destruct (profileNumber _ _) as [userValue|];
    [|exists details, details'; auto].
  destruct (calculateFitStatus_total userValue chartValue fabricType)
    as [r [-> _]].
  destruct (calculateFitStatus_total userValue chartValue fabricType')
    as [r' [-> _]].
  eexists; eexists. split; [reflexivity|]. split; [reflexivity|].
  rewrite !map_app, H. reflexivity.
Qed.

Lemma forEach_detailEntry_fabric (profile : Profile)
  (fabricType fabricType' : string) (entries : list (string * value))
  (details details' : list FitDetail.t) :
  map FitDetail.chartValue details = map FitDetail.chartValue details' ->
  exists all all',
    forEach (detailEntry profile fabricType) entries details = Some all /\
    forEach (detailEntry profile fabricType') entries details' = Some all' /\
    map FitDetail.chartValue all = map FitDetail.chartValue all'.
Proof.
  revert details details'.
  induction entries as [|e entries IH]; intros details details' H.
  - exists details, details'. auto.
  - cbn [forEach].
    destruct (detailEntry_fabric profile fabricType fabricType' _ _ e H)
      as [next [next' [-> [-> Hnext]]]].
    exact (IH next next' Hnext).
Qed.

Lemma rangeMin_chartValue (d d' : FitDetail.t) :
  FitDetail.chartValue d = FitDetail.chartValue d' -> rangeMin d = rangeMin d'.
Proof. unfold rangeMin. intros ->. reflexivity. Qed.

Lemma rangeMax_chartValue (d d' : FitDetail.t) :
  FitDetail.chartValue d = FitDetail.chartValue d' -> rangeMax d = rangeMax d'.
Proof. unfold rangeMax. intros ->. reflexivity. Qed.

Lemma map_chartValue {B : Type} (g : FitDetail.t -> B)
  (ds ds' : list FitDetail.t) :
  (forall d d', FitDetail.chartValue d = FitDetail.chartValue d' -> g d = g d') ->
  map FitDetail.chartValue ds = map FitDetail.chartValue ds' ->
  map g ds = map g ds'.
Proof.
  intros Hg. revert ds'. induction ds as [|d ds IH]; intros [|d' ds'] E;
    try discriminate E; [reflexivity|].
  simpl in E. injection E as E1 E2. simpl.
  rewrite (Hg d d' E1), (IH ds' E2). reflexivity.
Qed.

(** The factors of the range text are the binary64 values nearest to 0.95
    and 1.05. *)
Lemma factor_95 : real (95 # 100) == 4278419646001971 # 4503599627370496.
Proof. vm_compute. reflexivity. Qed.

Lemma factor_105 : real (105 # 100) == 4728779608739021 # 4503599627370496.
Proof. vm_compute. reflexivity. Qed.

(** The product with the first factor is finite. *)
Lemma mul_95 (c : Q) :
  mul (Finite c) (Finite (95 # 100))
  = Finite (roundQ (real c * real (95 # 100))) /\
  real (roundQ (real c * real (95 # 100)))
  == roundQ (real c * real (95 # 100)).
Proof.
  cbn [mul]. destruct (real_bounds c) as [L U]. pose proof MAX_pos as MP.
  pose proof factor_95 as F. set (k := real (95 # 100)) in *.
  apply binary64_bounded; rewrite F; lra.
Qed.

(** The product with the second factor is finite or an infinity. *)
Lemma mul_105 (c : Q) :
  let p := real c * real (105 # 100) in
  (overflows p = false /\
   mul (Finite c) (Finite (105 # 100)) = Finite (roundQ p) /\
   real (roundQ p) == roundQ p) \/
  (overflows p = true /\
   mul (Finite c) (Finite (105 # 100)) = Infinity (Qltb (real c) 0)).
Proof.
  cbv zeta. cbn [mul]. pose proof factor_105 as F.
  destruct (binary64_cases (real c * real (105 # 100))) as [[O E]|[O E]].
  - right. split; [exact O|]. rewrite E. f_equal.
    set (k := real (105 # 100)) in *.
    destruct (Qltb (real c) 0) eqn:S.
    + apply Qltb_lt in S. apply Qltb_lt. rewrite F. lra.
    + apply Qltb_ge in S. apply Qltb_ge. rewrite F. lra.
  - left. split; [exact O|exact E].
Qed.

(** C8, the claim as stated fails: the products are binary64 products with
    the binary64 values nearest to 0.95 and 1.05.  For the chart value
    38.94736842105263 the product with 0.95 is below 37 and is rounded to
    37, so the range starts at 37 and not at floor(c * 0.95) = 36; for
    41.904761904761905 the product with 1.05 is above 44 and is rounded to
    44, so the range ends at 44 and not at ceil(c * 1.05) = 45.  For an
    infinite chart value the two numbers are that infinity, not integers. *)
Lemma range_text_rounded :
  let c := 3894736842105263 # 100000000000000 in
  let c' := 41904761904761905 # 1000000000000000 in
  rangeMin (FitDetail.make "chest" (Finite 40) (Finite c) "tight")
  = Finite (inject_Z 37) /\
  Qfloor (c * (95 # 100)) = 36%Z /\
  Qfloor (real c * (95 # 100)) = 36%Z /\
  rangeMax (FitDetail.make "chest" (Finite 40) (Finite c') "perfect")
  = Finite (inject_Z 44) /\
  Qceiling (c' * (105 # 100)) = 45%Z /\
  Qceiling (real c' * (105 # 100)) = 45%Z /\
  rangeMin (FitDetail.make "chest" (Finite 40) (Infinity false) "loose")
  = Infinity false /\
  rangeMax (FitDetail.make "chest" (Finite 40) (Infinity false) "loose")
  = Infinity false.
Proof.
  cbv zeta. repeat split; vm_compute; reflexivity.
Qed.

(** C8, amended: the two numbers of the range text are [Math.floor] and
    [Math.ceil] of the binary64 products of the chart value with the
    binary64 values nearest to 0.95 and 1.05.  For a finite chart value c
    the first is the greatest integer not above the rounded product
    c * 0.95; the second is the least integer not below the rounded product
    c * 1.05, or the infinity of the sign of c when that product is out of
    range; a rounded product is within a relative error of 2^-53 (or half of
    the least subnormal value) of the exact one.  For a chart value that is
    [NaN] or an infinity both are the chart value.  They are computed from
    the chart value alone: the details of a size give the same ranges under
    every fabric type. *)
Theorem range_text (chartValue : number) (key : string) (userValue : number)
  (status : string) (profile : Profile) (entries : list (string * value))
  (fabricType fabricType' : string) :
  let detail := FitDetail.make key userValue chartValue status in
  real (95 # 100) == 4278419646001971 # 4503599627370496 /\
  real (105 # 100) == 4728779608739021 # 4503599627370496 /\
  (forall c, chartValue = Finite c ->
     let lo := roundQ (real c * real (95 # 100)) in
     let hi := roundQ (real c * real (105 # 100)) in
     Qabs (lo - real c * real (95 # 100))
     <= Qabs (real c * real (95 # 100)) * pow2 (-53) + pow2 (-1075) /\
     Qabs (hi - real c * real (105 # 100))
     <= Qabs (real c * real (105 # 100)) * pow2 (-53) + pow2 (-1075) /\
     rangeMin detail = Finite (inject_Z (Qfloor lo)) /\
     (inject_Z (Qfloor lo) <= lo /\ lo < inject_Z (Qfloor lo + 1)) /\
     (overflows (real c * real (105 # 100)) = false ->
      rangeMax detail = Finite (inject_Z (Qceiling hi)) /\
      inject_Z (Qceiling hi - 1) < hi /\ hi <= inject_Z (Qceiling hi)) /\
     (overflows (real c * real (105 # 100)) = true ->
      rangeMax detail = Infinity (Qltb (real c) 0))) /\
  (isFinite chartValue = false ->
   rangeMin detail = chartValue /\ rangeMax detail = chartValue) /\
  option_map (map rangeMin) (fitDetails profile entries fabricType)
  = option_map (map rangeMin) (fitDetails profile entries fabricType') /\
  option_map (map rangeMax) (fitDetails profile entries fabricType)
  = option_map (map rangeMax) (fitDetails profile entries fabricType').
Proof.
  cbv zeta. split; [exact factor_95|]. split; [exact factor_105|].
  split; [|split].
  - intros c ->. unfold rangeMin, rangeMax. cbn [FitDetail.chartValue].
    destruct (mul_95 c) as [E95 R95].
    split; [apply roundQ_error|]. split; [apply roundQ_error|].
    split; [|split; [|split]].
    + rewrite E95. cbn [Math_floor]. rewrite (Qfloor_comp _ _ R95). reflexivity.
    + split; [apply Qfloor_le|apply Qlt_floor].
    + intros O. destruct (mul_105 c) as [[_ [E R]]|[O' _]]; [|congruence].
      rewrite E. cbn [Math_ceil]. rewrite (Qceiling_comp _ _ R).
      split; [reflexivity|]. split; [apply Qceiling_lt|apply Qle_ceiling].
    + intros O. destruct (mul_105 c) as [[O' _]|[_ E]]; [congruence|].
      rewrite E. reflexivity.
  - unfold rangeMin, rangeMax. cbn [FitDetail.chartValue].
    destruct chartValue as [|s|c]; [split; reflexivity| |discriminate].
    intros _. destruct s; split; vm_compute; reflexivity.
  - unfold fitDetails.
    destruct (forEach_detailEntry_fabric profile fabricType fabricType'
                entries [] [] eq_refl) as [ds [ds' [-> [-> E]]]].
    cbn [option_map]. split; f_equal.
    + exact (map_chartValue rangeMin ds ds' rangeMin_chartValue E).
    + exact (map_chartValue rangeMax ds ds' rangeMax_chartValue E).
Qed.

End RangeText.

(** ** Further properties of the aggregation *)

Section AggregationOrder.
Import JS Recommendations Spec Display.
Local Open Scope string_scope.

Lemma existsb_Permutation {A : Type} (f : A -> bool) (l l' : list A) :
  Permutation l l' -> existsb f l = existsb f l'.
Proof.
  induction 1 as [|x l l' _ IH|x y l|l l' l'' _ IH1 _ IH2]; simpl.
  - reflexivity.
  - rewrite IH. reflexivity.
  - destruct (f x), (f y); reflexivity.
  - congruence.
Qed.

Lemma forallb_Permutation {A : Type} (f : A -> bool) (l l' : list A) :
  Permutation l l' -> forallb f l = forallb f l'.
Proof.
  induction 1 as [|x l l' _ IH|x y l|l l' l'' _ IH1 _ IH2]; simpl.
  - reflexivity.
  - rewrite IH. reflexivity.
  - destruct (f x), (f y); reflexivity.
  - congruence.
Qed.

(** X1: the derived confidence does not depend on the order in which the
    measurements were compared, whatever their statuses. *)
Theorem deriveActualConfidence_Permutation
  (ms ms' : list Comparison.t) (confidence : string) :
  Permutation ms ms' ->
  deriveActualConfidence ms confidence = deriveActualConfidence ms' confidence.
Proof.
  intros H. unfold deriveActualConfidence.
  rewrite (Permutation_length H).
  rewrite !(existsb_Permutation _ ms ms' H), (forallb_Permutation _ ms ms' H).
  reflexivity.
Qed.

Lemma deriveActualConfidence_Permutation_witness :
  let a := Comparison.make "chest" (Finite 90) (Finite 91) (Finite (10 # 10))
             "Perfect" in
  let b := Comparison.make "hip" (Finite 95) (Finite 90) (Finite (-50 # 10))
             "Tight" in
  Permutation [a; b] [b; a] /\
  deriveActualConfidence [a; b] "High" = deriveActualConfidence [b; a] "High".
Proof.
  cbv zeta. split; [apply perm_swap|].
  apply deriveActualConfidence_Permutation. apply perm_swap.
Defined.

Lemma forallb_false_Exists {A : Type} (f : A -> bool) (l : list A) :
  forallb f l = false <-> Exists (fun x => f x = false) l.
Proof.
  induction l as [|x l IH]; simpl.
  - split; [discriminate | intros H; inversion H].
  - rewrite andb_false_iff, IH. split.
    + intros [H|H]; [left | right]; assumption.
    + intros H. inversion H; subst; [left | right]; assumption.
Qed.

Lemma existsb_status (t : string) (ds : list FitDetail.t) :
  existsb (fun f => FitDetail.status f =? t) ds = true <->
  Exists (fun d => FitDetail.status d = t) ds.
Proof.
  rewrite existsb_exists, Exists_exists.
  split; intros [d [Hin H]]; exists d; split; trivial;
    apply String.eqb_eq; exact H.
Qed.

Lemma forallb_status (t : string) (ds : list FitDetail.t) :
  forallb (fun f => FitDetail.status f =? t) ds = true <->
  Forall (fun d => FitDetail.status d = t) ds.
Proof.
  rewrite forallb_forall, Forall_forall.
  split; intros H d Hin; apply String.eqb_eq; auto.
Qed.

(** X2: [overallFit] of the size-comparison view, for details with any
    statuses.  It is "unknown" exactly for no detail, "perfect" exactly
    when there is a detail and every status is "perfect", "tight" exactly
    when some status is "tight", "loose" exactly when some status is
    "loose" and none is "tight", and "good" in the remaining case; the chest
    is highlighted exactly in the "perfect" case. *)
Theorem overallFit_priority (ds : list FitDetail.t) :
  let some s := Exists (fun d => FitDetail.status d = s) ds in
  let every s := Forall (fun d => FitDetail.status d = s) ds in
  (overallFit ds = "unknown" <-> ds = []) /\
  (overallFit ds = "perfect" <-> ds <> [] /\ every "perfect") /\
  (overallFit ds = "tight" <-> some "tight") /\
  (overallFit ds = "loose" <-> some "loose" /\ ~ some "tight") /\
  (overallFit ds = "good" <->
   ds <> [] /\ ~ every "perfect" /\ ~ some "tight" /\ ~ some "loose") /\
  (highlightRecommended (overallFit ds) = Some "chest" <->
   ds <> [] /\ every "perfect").
Proof.
  cbv zeta.
  pose proof (forallb_status "perfect" ds) as HP.
  pose proof (existsb_status "tight" ds) as HT.
  pose proof (existsb_status "loose" ds) as HL.
  pose proof (every_excludes_some "perfect" "tight" ds ltac:(discriminate))
    as PT.
  pose proof (every_excludes_some "perfect" "loose" ds ltac:(discriminate))
    as PL.
  unfold overallFit, highlightRecommended.
  destruct ds as [|d ds].
  - cbn [List.length Nat.ltb Nat.leb].
    repeat split; try discriminate; try tauto; try congruence.
    intros H. inversion H.
  - replace (0 <? List.length (d :: ds))%nat with true by reflexivity.
    assert (Hne : d :: ds <> []) by discriminate.
    set (l := d :: ds) in *. clearbody l.
    set (P := Forall (fun d0 => FitDetail.status d0 = "perfect") l) in *.
    set (T := Exists (fun d0 => FitDetail.status d0 = "tight") l) in *.
    set (L := Exists (fun d0 => FitDetail.status d0 = "loose") l) in *.
    clearbody P T L.
    revert HP HT HL PT PL.
    generalize (forallb (fun f => FitDetail.status f =? "perfect") l).
    generalize (existsb (fun f => FitDetail.status f =? "tight") l).
    generalize (existsb (fun f => FitDetail.status f =? "loose") l).
    intros bL bT bP HP HT HL PT PL.
    destruct bP.
    + rewrite (PT eq_refl) in HT. rewrite (PL eq_refl) in HL.
      repeat split; try discriminate; intuition congruence.
    + destruct bT; [repeat split; try discriminate; intuition congruence|].
      destruct bL; repeat split; try discriminate; intuition congruence.
Qed.

End AggregationOrder.

(** ** Further properties of the classifier *)

Section ClassifierOrder.
Import Binary64 JS Recommendations Spec.
Local Open Scope string_scope.

Lemma lt_le_trans (a b c : number) :
  lt a b = true -> le b c = true -> lt a c = true.
Proof.
  destruct a as [|s|x], b as [|s'|y], c as [|s''|z]; cbn [lt le];
    try discriminate;
    try (destruct s; try destruct s'; try destruct s''; simpl; congruence);
    try (destruct s'; try destruct s''; simpl; congruence);
    try (destruct s''; simpl; congruence).
  intros H1 H2. apply Qltb_lt in H1. apply Qle_bool_iff in H2.
  apply Qltb_lt. exact (Qlt_le_trans _ _ _ H1 H2).
Qed.

(** Rounding to one decimal keeps the order. *)
Lemma toFixed1_monotone (x y : Q) :
  real x <= real y ->
  le (parseFloat (toFixed1 (Finite x))) (parseFloat (toFixed1 (Finite y)))
  = true.
Proof.
  intros H. rewrite !toFixed1_tenths. cbn [le]. apply Qle_bool_iff.
  apply real_le. pose proof (tenths_le _ _ H) as T.
  unfold Qle. cbn [Qnum Qden]. lia.
Qed.

Lemma rounded_monotone (a b : number) :
  le a b = true ->
  le (parseFloat (toFixed1 a)) (parseFloat (toFixed1 b)) = true.
Proof.
  destruct a as [|s|x], b as [|s'|y]; cbn [le]; try discriminate.
  - intros H. exact H.
  - intros H. rewrite toFixed1_tenths. cbn [toFixed1 parseFloat le]. exact H.
  - intros H. rewrite toFixed1_tenths. cbn [toFixed1 parseFloat le]. exact H.
  - intros H. apply Qle_bool_iff in H. apply toFixed1_monotone, H.
Qed.

(** An exact result overflows when its rounding is at least 2^1024 on one
    side of zero. *)
Lemma overflows_true (q : Q) :
  overflows q = true ->
  (0 < q /\ pow2 1024 <= roundQ q) \/ (q < 0 /\ roundQ q <= - pow2 1024).
Proof.
  unfold overflows. intros H. apply Qle_bool_iff in H.
  pose proof (pow2_pos 1024) as P.
  destruct (roundQ_cases q) as [[Hq E]|[[Hq E]|[Hq E]]].
  - right. split; [exact Hq|].
    pose proof (roundQ_nonpos q ltac:(lra)) as N.
    rewrite Qabs_neg in H by exact N. lra.
  - exfalso. rewrite E in H. change (Qabs 0) with 0 in H. lra.
  - left. split; [exact Hq|].
    pose proof (roundQ_nonneg q ltac:(lra)) as N.
    rewrite Qabs_pos in H by exact N. exact H.
Qed.

Lemma overflows_above (q : Q) : pow2 1024 <= roundQ q -> overflows q = true.
Proof.
  intros H. unfold overflows. apply Qle_bool_iff.
  pose proof (pow2_pos 1024) as P. rewrite Qabs_pos by lra. exact H.
Qed.

Lemma overflows_below (q : Q) : roundQ q <= - pow2 1024 -> overflows q = true.
Proof.
  intros H. unfold overflows. apply Qle_bool_iff.
  pose proof (pow2_pos 1024) as P. rewrite Qabs_neg by lra. lra.
Qed.

(** The result of an operation grows with its exact result. *)
Lemma binary64_le (z z' : Q) :
  z <= z' -> le (binary64 z) (binary64 z') = true.
Proof.
  intros H. pose proof (roundQ_le z z' H) as R.
  destruct (binary64_cases z) as [[O ->]|[O [-> F]]];
    destruct (binary64_cases z') as [[O' ->]|[O' [-> F']]]; cbn [le].
  - destruct (overflows_true z O) as [[S B]|[S B]].
    + assert (E' : Qltb z' 0 = false) by (apply Qltb_ge; lra).
      rewrite E'. apply orb_true_r.
    + assert (E : Qltb z 0 = true) by (apply Qltb_lt; exact S).
      rewrite E. reflexivity.
  - destruct (overflows_true z O) as [[S B]|[S B]].
    + rewrite (overflows_above z') in O' by lra. discriminate O'.
    + apply Qltb_lt. exact S.
  - destruct (overflows_true z' O') as [[S B]|[S B]].
    + assert (E' : Qltb z' 0 = false) by (apply Qltb_ge; lra).
      rewrite E'. reflexivity.
    + rewrite (overflows_below z) in O by lra. discriminate O.
  - apply Qle_bool_iff. rewrite F, F'. exact R.
Qed.

(** The status once the band is known and the difference is a number. *)
Lemma status_of_difference (d lo hi : number) :
  isNaN d = false -> isNaN lo = false -> isNaN hi = false ->
  le lo hi = true ->
  let status :=
    if ge d lo && le d hi then "perfect"
    else if lt d lo then "tight"
    else if gt d hi then "loose"
    else "good" in
  (status = "tight" <-> lt d lo = true) /\
  (status = "loose" <-> gt d hi = true) /\
  (status = "perfect" <-> lt d lo = false /\ gt d hi = false).
Proof.
  intros Hd Hlo Hhi Hband. cbv zeta.
  destruct (ge d lo) eqn:E1; [destruct (le d hi) eqn:E2|]; cbn [andb].
  - assert (L : lt d lo = false).
    { destruct (lt d lo) eqn:L; [|reflexivity].
      apply lt_not_ge in L. congruence. }
    assert (G : gt d hi = false).
    { destruct (gt d hi) eqn:G; [|reflexivity].
      apply gt_not_le in G. congruence. }
    rewrite L, G. repeat split; try discriminate; tauto.
  - pose proof (not_le_gt d hi Hd Hhi E2) as G.
    assert (L : lt d lo = false).
    { destruct (lt d lo) eqn:L; [|reflexivity].
      apply lt_not_ge in L. congruence. }
    rewrite L, G. repeat split; try discriminate; intuition congruence.
  - pose proof (not_ge_lt d lo Hd Hlo E1) as L. rewrite L.
    pose proof (below_not_above d lo hi Hband L) as G. rewrite G.
    repeat split; try discriminate; intuition congruence.
Qed.

(** X3: the verdict follows the ease.  For finite measurements and a band
    of the table, a larger chart value or a smaller body value never lowers
    the reported difference, keeps a loose verdict loose, and a measurement
    that is tight afterwards was tight before. *)
Theorem calculateFitStatus_monotone (u u' c c' : Q) (fabricType : string)
  (band : FabricEaseConfig.t) :
  configFor fabricType = Config band ->
  u' <= u -> c <= c' ->
  exists r r',
    calculateFitStatus (Finite u) (Finite c) fabricType = Some r /\
    calculateFitStatus (Finite u') (Finite c') fabricType = Some r' /\
    le (FitStatus.difference r) (FitStatus.difference r') = true /\
    (FitStatus.status r = "loose" -> FitStatus.status r' = "loose") /\
    (FitStatus.status r' = "tight" -> FitStatus.status r = "tight").
Proof.
  intros H Hu Hc.
  rewrite !(calculateFitStatus_Config _ _ _ _ H).
  eexists; eexists. split; [reflexivity|]. split; [reflexivity|].
  cbn [FitStatus.status FitStatus.difference].
  destruct (configFor_cases fabricType) as [[band' [Hin H']]|[_ H']];
    [|congruence].
  assert (band' = band) by congruence. subst band'.
  destruct (band_sound band Hin) as [Hlo [Hhi Hband]].
  assert (M : le (parseFloat (toFixed1 (sub (Finite c) (Finite u))))
                 (parseFloat (toFixed1 (sub (Finite c') (Finite u')))) = true).
  { apply rounded_monotone. cbn [sub]. apply binary64_le.
    pose proof (real_le _ _ Hu). pose proof (real_le _ _ Hc). lra. }
  assert (N : isNaN (parseFloat (toFixed1 (sub (Finite c) (Finite u)))) = false).
  { rewrite rounded_isNaN. apply sub_Finite_isNaN. }
  assert (N' : isNaN (parseFloat (toFixed1 (sub (Finite c') (Finite u'))))
               = false).
  { rewrite rounded_isNaN. apply sub_Finite_isNaN. }
  set (d := parseFloat (toFixed1 (sub (Finite c) (Finite u)))) in *.
  set (d' := parseFloat (toFixed1 (sub (Finite c') (Finite u')))) in *.
  destruct (status_of_difference d _ _ N Hlo Hhi Hband) as [T [L _]].
  destruct (status_of_difference d' _ _ N' Hlo Hhi Hband) as [T' [L' _]].
  split; [exact M|]. split.
  - intros S. apply L'. apply L in S. unfold gt in *.
    exact (lt_le_trans _ _ _ S M).
  - intros S. apply T. apply T' in S.
    exact (le_lt_trans _ _ _ M S).
Qed.

Lemma calculateFitStatus_monotone_witness :
  let band :=
    {| FabricEaseConfig.perfectMin := Finite 2;
       FabricEaseConfig.perfectMax := Finite 4;
       FabricEaseConfig.tightThreshold := Finite 0;
       FabricEaseConfig.looseThreshold := Finite 6 |} in
  configFor "rigid" = Config band /\ 88 <= 90 /\ 91 <= 95 /\
  exists r r',
    calculateFitStatus (Finite 90) (Finite 91) "rigid" = Some r /\
    calculateFitStatus (Finite 88) (Finite 95) "rigid" = Some r' /\
    le (FitStatus.difference r) (FitStatus.difference r') = true /\
    (FitStatus.status r = "loose" -> FitStatus.status r' = "loose") /\
    (FitStatus.status r' = "tight" -> FitStatus.status r = "tight").
Proof.
  cbv zeta.
  assert (H1 : 88 <= 90) by (unfold Qle; simpl; lia).
  assert (H2 : 91 <= 95) by (unfold Qle; simpl; lia).
  split; [reflexivity|]. split; [exact H1|]. split; [exact H2|].
  exact (calculateFitStatus_monotone 90 88 91 95 "rigid" _ eq_refl H1 H2).
Defined.

(** X4: the three bands are ordered by ease.  For any two measurements, a
    verdict that is loose on rigid fabric is loose on normal fabric, and one
    that is loose on normal fabric is loose on stretchy fabric; a verdict
    that is tight on stretchy fabric is tight on normal fabric, and one that
    is tight on normal fabric is tight on rigid fabric. *)
Theorem fabric_bands_ordered (userValue chartValue : number) :
  exists rigid normal stretchy,
    calculateFitStatus userValue chartValue "rigid" = Some rigid /\
    calculateFitStatus userValue chartValue "normal" = Some normal /\
    calculateFitStatus userValue chartValue "stretchy" = Some stretchy /\
    (FitStatus.status rigid = "loose" -> FitStatus.status normal = "loose") /\
    (FitStatus.status normal = "loose" ->
     FitStatus.status stretchy = "loose") /\
    (FitStatus.status stretchy = "tight" ->
     FitStatus.status normal = "tight") /\
    (FitStatus.status normal = "tight" -> FitStatus.status rigid = "tight").
Proof.
  rewrite (calculateFitStatus_Config userValue chartValue "rigid" _ eq_refl).
  rewrite (calculateFitStatus_Config userValue chartValue "normal" _ eq_refl).
  rewrite (calculateFitStatus_Config userValue chartValue "stretchy" _ eq_refl).
  eexists; eexists; eexists.
  split; [reflexivity|]. split; [reflexivity|]. split; [reflexivity|].
  cbn [FitStatus.status FabricEaseConfig.perfectMin
         FabricEaseConfig.perfectMax].
  set (d := parseFloat (toFixed1 (sub chartValue userValue))).
  destruct (isNaN d) eqn:Hd.
  - destruct d; try discriminate Hd.
    repeat split; intros H; discriminate H.
  - destruct (status_of_difference d (Finite 2) (Finite 4) Hd
                eq_refl eq_refl eq_refl) as [TR [LR _]].
    destruct (status_of_difference d (Finite (- (3 # 2))) (Finite 2) Hd
                eq_refl eq_refl eq_refl) as [TN [LN _]].
    destruct (status_of_difference d (Finite (- 4)) (Finite 1) Hd
                eq_refl eq_refl eq_refl) as [TS [LS _]].
    repeat split; intros H.
    + apply LN. apply LR in H. unfold gt in *.
      exact (le_lt_trans (Finite 2) (Finite 4) d eq_refl H).
    + apply LS. apply LN in H. unfold gt in *.
      exact (le_lt_trans (Finite 1) (Finite 2) d eq_refl H).
    + apply TN. apply TS in H.
      exact (lt_le_trans d (Finite (- 4)) (Finite (- (3 # 2))) H eq_refl).
    + apply TR. apply TN in H.
      exact (lt_le_trans d (Finite (- (3 # 2))) (Finite 2) H eq_refl).
Qed.

(** The decimal written for a binary64 value, read back and written again,
    is the same decimal. *)
Lemma tenths_fixed (v : Q) :
  roundQ v == v -> - MAX <= v -> v <= MAX ->
  tenths (real (tenths v # 10)) = tenths v.
Proof.
  intros R L U. unfold tenths at 2 3. destruct (Qltb v 0) eqn:E.
  - apply Qltb_lt in E.
    assert (R' : roundQ (- v) == - v) by (rewrite roundQ_opp, R; reflexivity).
    pose proof (tenths_stable (- v) ltac:(lra) R' ltac:(lra)) as S.
    cbv zeta in S. set (n := Qfloor (- v * 10 + (1 # 2))) in *.
    assert (N0 : (0 <= n)%Z).
    { change 0%Z with (Qfloor 0). apply Qfloor_resp_le. lra. }
    assert (Y0 : 0 <= finite (n # 10)).
    { apply finite_nonneg. rewrite tenths_scale.
      rewrite Zle_Qle in N0. change (inject_Z 0) with 0 in N0. lra. }
    assert (Y : real (- n # 10) == - finite (n # 10)).
    { rewrite (real_comp _ _ (tenths_opp n)). apply real_opp. }
    rewrite (tenths_comp _ _ Y). unfold tenths.
    destruct (Qltb (- finite (n # 10)) 0) eqn:E2.
    + f_equal. rewrite <- S at 2. apply Qfloor_comp. ring.
    + apply Qltb_ge in E2.
      assert (Y1 : finite (n # 10) == 0) by lra.
      assert (N : n = 0%Z).
      { rewrite <- S. transitivity (Qfloor (0 * 10 + (1 # 2)));
          [apply Qfloor_comp; lra|reflexivity]. }
      transitivity (Qfloor (0 * 10 + (1 # 2)));
        [apply Qfloor_comp; lra|rewrite N; reflexivity].
  - apply Qltb_ge in E.
    pose proof (tenths_stable v E R U) as S. cbv zeta in S.
    set (n := Qfloor (v * 10 + (1 # 2))) in *.
    assert (N0 : (0 <= n)%Z).
    { change 0%Z with (Qfloor 0). apply Qfloor_resp_le. lra. }
    assert (Y0 : 0 <= real (n # 10)).
    { apply finite_nonneg. rewrite tenths_scale.
      rewrite Zle_Qle in N0. change (inject_Z 0) with 0 in N0. lra. }
    unfold tenths. apply Qltb_ge in Y0. rewrite Y0. exact S.
Qed.

(** The rounding is idempotent, also next to a subtraction of zero. *)
Lemma difference_fixed (x : number) :
  let d := parseFloat (toFixed1 x) in
  parseFloat (toFixed1 (sub d (Finite 0))) = d.
Proof.
  cbv zeta. destruct x as [|s|q]; [reflexivity|reflexivity|].
  rewrite toFixed1_tenths. set (k := tenths (real q)). cbn [sub].
  destruct (real_bounds (k # 10)) as [L U]. pose proof real_zero as R0.
  destruct (binary64_bounded (real (k # 10) - real 0)) as [E F];
    [lra|lra|].
  rewrite E, toFixed1_tenths. do 2 f_equal.
  assert (Y : real (roundQ (real (k # 10) - real 0)) == real (k # 10)).
  { rewrite F. rewrite <- (real_double (k # 10)) at 2.
    apply roundQ_comp. rewrite R0. ring. }
  rewrite (tenths_comp _ _ Y). unfold k.
  destruct (real_bounds q) as [Lq Uq].
  exact (tenths_fixed (real q) (real_double q) Lq Uq).
Qed.

(** X5: the verdict depends on the two measurements through the reported
    difference only, and the reported difference is stable: classifying the
    reported difference against a body value of zero returns the same
    result, for every pair of measurements and every fabric type. *)
Theorem calculateFitStatus_difference_fixed (userValue chartValue : number)
  (fabricType : string) :
  exists r,
    calculateFitStatus userValue chartValue fabricType = Some r /\
    calculateFitStatus (Finite 0) (FitStatus.difference r) fabricType = Some r.
Proof.
  destruct (configFor_cases fabricType) as [[band [_ H]]|[_ H]].
  - rewrite (calculateFitStatus_Config userValue chartValue _ _ H).
    eexists. split; [reflexivity|]. cbn [FitStatus.difference].
    rewrite (calculateFitStatus_Config _ _ _ _ H).
    rewrite difference_fixed. reflexivity.
  - rewrite (calculateFitStatus_Builtin userValue chartValue _ H).
    eexists. split; [reflexivity|]. cbn [FitStatus.difference].
    rewrite (calculateFitStatus_Builtin _ _ _ H).
    rewrite difference_fixed. reflexivity.
Qed.

End ClassifierOrder.

(** ** The two loops over the entries of a size *)

Section Loops.
Import JS Recommendations Spec Matching.
Local Open Scope string_scope.

Lemma comparisonFrom_cons (profile : Profile) (e : string * value)
  (entries : list (string * value)) (fabricType : string) (m : Comparison.t) :
  comparisonFrom profile entries fabricType m ->
  comparisonFrom profile (e :: entries) fabricType m.
Proof.
  intros [H1 [H2 H3]]. split; [exact H1|]. split; [right; exact H2|exact H3].
Qed.

Lemma compareEntry_step (profile : Profile) (fabricType : string)
  (acc : list Comparison.t) (e : string * value)
  (entries : list (string * value)) :
  (compared profile e = false /\
   compareEntry profile fabricType acc e = Some acc) \/
  (compared profile e = true /\
   exists m,
     compareEntry profile fabricType acc e = Some (acc ++ [m])%list /\
     Comparison.key m = fst e /\
     comparisonFrom profile (e :: entries) fabricType m).
Proof.
  destruct e as [key v]. unfold compareEntry, compared. cbn [fst snd].
  destruct (key =? "size") eqn:Ek; cbn [negb andb]; [left; split; reflexivity|].
  destruct (asNumber v) as [chartValue|] eqn:Ev; [|left; split; reflexivity].
  destruct (profileNumber profile (userKeyOf key)) as [userValue|] eqn:Eu;
    [|left; split; reflexivity].
  destruct (calculateFitStatus_total userValue chartValue fabricType)
    as [r [Hr _]].
  rewrite Hr. right. split; [reflexivity|]. eexists.
  split; [reflexivity|]. split; [reflexivity|].
  split; [apply String.eqb_neq; exact Ek|]. split.
  - left. cbn [Comparison.key Comparison.chartValue].
    destruct v; try discriminate Ev. cbn [asNumber] in Ev.
    injection Ev as ->. reflexivity.
  - split; [exact Eu|]. exists r. repeat split. exact Hr.
Qed.

Lemma forEach_compareEntry_spec (profile : Profile) (fabricType : string)
  (entries : list (string * value)) (acc : list Comparison.t) :
  exists ms,
    forEach (compareEntry profile fabricType) entries acc
    = Some (acc ++ ms)%list /\
    map Comparison.key ms = map fst (filter (compared profile) entries) /\
    Forall (comparisonFrom profile entries fabricType) ms.
Proof.
  revert acc. induction entries as [|e entries IH]; intros acc.
  - exists []. rewrite app_nil_r. repeat split. constructor.
  - cbn [forEach filter].
    destruct (compareEntry_step profile fabricType acc e entries)
      as [[Ec ->]|[Ec [m [-> [Hk Hm]]]]]; rewrite Ec.
    + destruct (IH acc) as [ms [E [K F]]]. exists ms. rewrite E.
      repeat split; [exact K|].
      eapply Forall_impl; [|exact F]. apply comparisonFrom_cons.
    + destruct (IH (acc ++ [m])%list) as [ms [E [K F]]].
      exists (m :: ms). rewrite E, <- app_assoc. split; [reflexivity|].
      split; [cbn [map]; rewrite K, Hk; reflexivity|].
      constructor; [exact Hm|].
      eapply Forall_impl; [|exact F]. apply comparisonFrom_cons.
Qed.

(** X6: what the page compares.  With a profile, the comparisons are built
    without error, one for each entry of the size whose key is not "size",
    whose value is a number and whose normalized key holds a number in the
    profile, in the order of the entries; each one pairs that chart value
    with that profile value and carries the result of [calculateFitStatus]
    on the two. *)
Theorem measurementComparisons_spec (profile : Profile)
  (entries : list (string * value)) (fabricType : string) :
  exists ms,
    measurementComparisons (Some profile) entries fabricType = Some ms /\
    map Comparison.key ms = map fst (filter (compared profile) entries) /\
    Forall (comparisonFrom profile entries fabricType) ms.
Proof.
  unfold measurementComparisons. destruct entries as [|e entries].
  - exists []. repeat split. constructor.
  - replace (0 <? List.length (e :: entries))%nat with true by reflexivity.
    exact (forEach_compareEntry_spec profile fabricType (e :: entries) []).
Qed.

Lemma forEach_both (profile : Profile) (fabricType : string)
  (entries : list (string * value)) (acc : list Comparison.t)
  (acc' : list FitDetail.t) :
  Forall2 sameMeasurement acc acc' ->
  exists ms ds,
    forEach (compareEntry profile fabricType) entries acc = Some ms /\
    forEach (detailEntry profile fabricType) entries acc' = Some ds /\
    Forall2 sameMeasurement ms ds.
Proof.
  revert acc acc'. induction entries as [|[key v] entries IH]; intros acc acc' H.
  - exists acc, acc'. repeat split. exact H.
  - cbn [forEach]. unfold compareEntry, detailEntry.
    destruct (key =? "size"); [exact (IH acc acc' H)|].
    destruct (asNumber v) as [chartValue|]; [|exact (IH acc acc' H)].
    destruct (profileNumber profile (userKeyOf key)) as [userValue|];
      [|exact (IH acc acc' H)].
    destruct (calculateFitStatus_total userValue chartValue fabricType)
      as [r [Hr [Hs _]]].
    rewrite Hr. apply IH. apply Forall2_app; [exact H|].
    constructor; [|constructor]. repeat split. exact Hs.
Qed.

Lemma sameMeasurement_statuses (ms : list Comparison.t)
  (ds : list FitDetail.t) :
  Forall2 sameMeasurement ms ds ->
  map Comparison.status ms
  = map (fun d => capitalize (FitDetail.status d)) ds /\
  Forall (fun d => In (FitDetail.status d) statuses) ds.
Proof.
  induction 1 as [|m d ms ds [_ [_ [_ [Hs Hin]]]] _ [IH1 IH2]].
  - split; [reflexivity|constructor].
  - split; [cbn [map]; rewrite Hs, IH1; reflexivity|].
    constructor; assumption.
Qed.

(** The derived confidence and [overallFit] on corresponding lists. *)
Lemma confidence_of_details (ms : list Comparison.t) (ds : list FitDetail.t)
  (confidence : string) :
  Forall2 sameMeasurement ms ds -> ds <> [] ->
  deriveActualConfidence ms confidence = capitalize (overallFit ds).
Proof.
  intros H Hne. destruct (sameMeasurement_statuses ms ds H) as [E Hds].
  assert (Hlen : List.length ms = List.length ds)
    by exact (Forall2_length H).
  unfold deriveActualConfidence, overallFit.
  rewrite Hlen, (length_eqb_0 ds Hne).
  rewrite !(existsb_statuses (fun s => includes (toLowerCase s) _) ms ds E).
  rewrite (forallb_statuses (fun s => includes (toLowerCase s) _) ms ds E).
  rewrite !existsb_details, forallb_details by (trivial; vm_compute; tauto).
  destruct ds as [|d ds]; [congruence|].
  replace (0 <? List.length (d :: ds))%nat with true by reflexivity.
  destruct (forallb _ (d :: ds)) eqn:EP.
  - rewrite (every_excludes_some "perfect" "tight" _ ltac:(discriminate) EP).
    rewrite (every_excludes_some "perfect" "loose" _ ltac:(discriminate) EP).
    reflexivity.
  - destruct (existsb _ (d :: ds)); [reflexivity|].
    destruct (existsb _ (d :: ds)); reflexivity.
Qed.

(** X7: the recommendation and the size-comparison view tell the same
    story.  Over the same profile, entries and fabric type, the comparisons
    of the recommendation and the details of the view are the same
    measurements in the same order, with the same values and the same
    status up to its capital; so whenever something is compared, the
    confidence of the page is the final recommendation [overallFit] of the
    view, capitalized, whatever confidence the recommendation came with. *)
Theorem comparisons_match_details (profile : Profile)
  (entries : list (string * value)) (fabricType confidence : string) :
  exists ms ds,
    measurementComparisons (Some profile) entries fabricType = Some ms /\
    fitDetails profile entries fabricType = Some ds /\
    Forall2 sameMeasurement ms ds /\
    (ds <> [] ->
     deriveActualConfidence ms confidence = capitalize (overallFit ds)) /\
    (ds = [] ->
     deriveActualConfidence ms confidence = confidence /\
     overallFit ds = "unknown").
Proof.
  destruct (forEach_both profile fabricType entries [] [] (Forall2_nil _))
    as [ms [ds [E1 [E2 H]]]].
  exists ms, ds. unfold measurementComparisons, fitDetails.
  split.
  - destruct entries as [|e entries]; [|exact E1].
    cbn [forEach] in E1. cbn. exact E1.
  - split; [exact E2|]. split; [exact H|]. split.
    + apply confidence_of_details. exact H.
    + intros ->. inversion H. subst. split; reflexivity.
Qed.

End Loops.

(** ** The display helpers *)

Section Helpers.
Import JS Recommendations Spec Display.
Local Open Scope string_scope.

Lemma lowerChar_upperChar (a : ascii) : lowerChar (upperChar a) = lowerChar a.
Proof.
  destruct a as [b0 b1 b2 b3 b4 b5 b6 b7].
  destruct b0, b1, b2, b3, b4, b5, b6, b7; reflexivity.
Qed.

Lemma lowerChar_lowerChar (a : ascii) : lowerChar (lowerChar a) = lowerChar a.
Proof.
  destruct a as [b0 b1 b2 b3 b4 b5 b6 b7].
  destruct b0, b1, b2, b3, b4, b5, b6, b7; reflexivity.
Qed.

Lemma toLowerCase_toUpperCase (s : string) :
  toLowerCase (toUpperCase s) = toLowerCase s.
Proof.
  induction s as [|a s IH]; [reflexivity|].
  cbn [toUpperCase toLowerCase]. rewrite lowerChar_upperChar, IH. reflexivity.
Qed.

Lemma toLowerCase_toLowerCase (s : string) :
  toLowerCase (toLowerCase s) = toLowerCase s.
Proof.
  induction s as [|a s IH]; [reflexivity|].
  cbn [toLowerCase]. rewrite lowerChar_lowerChar, IH. reflexivity.
Qed.

Lemma toLowerCase_capitalize (s : string) :
  toLowerCase (capitalize s) = toLowerCase s.
Proof.
  destruct s as [|a s]; [reflexivity|].
  cbn [capitalize toLowerCase]. rewrite lowerChar_upperChar. reflexivity.
Qed.

(** X8: the colour helpers do not look at the case of the letters: a
    status or confidence gets the same style written in upper case, in
    lower case, or with a capital. *)
Theorem style_helpers_ignore_case (s : string) :
  let variants := [toUpperCase s; toLowerCase s; capitalize s] in
  Forall (fun v => getConfidenceBadgeStyle v = getConfidenceBadgeStyle s)
    variants /\
  Forall (fun v => getMeasurementBorderColor v = getMeasurementBorderColor s)
    variants /\
  Forall (fun v => getStatusBadgeColor v = getStatusBadgeColor s) variants /\
  Forall (fun v => getFitIndicatorColor v = getFitIndicatorColor s) variants.
Proof.
  cbv zeta.
  unfold getConfidenceBadgeStyle, getMeasurementBorderColor,
    getStatusBadgeColor, getFitIndicatorColor. cbv zeta.
  repeat split; repeat constructor;
    rewrite ?toLowerCase_toUpperCase, ?toLowerCase_toLowerCase,
      ?toLowerCase_capitalize; reflexivity.
Qed.

(** X9: whenever something is compared, the confidence badge is drawn in
    one of the four fit colours, never in the gray of an unknown value, and
    its text is one of the four translated labels, never the raw string. *)
Theorem confidence_badge_known (ms : list Comparison.t)
  (confidence : string) (t : string -> string) :
  ms <> [] ->
  let c := deriveActualConfidence ms confidence in
  In (getConfidenceBadgeStyle c, translateConfidence c t)
    [ ("bg-green-500 text-white", t "recommendations.perfect");
      ("bg-blue-500 text-white", t "recommendations.good");
      ("bg-yellow-500 text-white", t "recommendations.loose");
      ("bg-red-500 text-white", t "recommendations.tight") ].
Proof.
  intros Hne. cbv zeta. unfold deriveActualConfidence.
  rewrite (length_eqb_0 ms Hne).
  destruct (existsb _ ms); [right; right; right; left; reflexivity|].
  destruct (existsb _ ms); [right; right; left; reflexivity|].
  destruct (forallb _ ms); [left; reflexivity|right; left; reflexivity].
Qed.

Lemma confidence_badge_known_witness :
  let ms :=
    [ Comparison.make "chest" (Finite 90) (Finite 91) (Finite (10 # 10))
        "Perfect";
      Comparison.make "waist" (Finite 80) (Finite 86) (Finite (60 # 10))
        "Loose" ] in
  let t := fun key : string => key in
  ms <> [] /\
  In (getConfidenceBadgeStyle (deriveActualConfidence ms "High"),
      translateConfidence (deriveActualConfidence ms "High") t)
    [ ("bg-green-500 text-white", t "recommendations.perfect");
      ("bg-blue-500 text-white", t "recommendations.good");
      ("bg-yellow-500 text-white", t "recommendations.loose");
      ("bg-red-500 text-white", t "recommendations.tight") ].
Proof.
  cbv zeta.
  assert (Hne : [ Comparison.make "chest" (Finite 90) (Finite 91)
                    (Finite (10 # 10)) "Perfect";
                  Comparison.make "waist" (Finite 80) (Finite 86)
                    (Finite (60 # 10)) "Loose" ] <> []) by discriminate.
  split; [exact Hne|].
  exact (confidence_badge_known _ "High" (fun key => key) Hne).
Defined.

(** X10: every status of [calculateFitStatus] is known to every helper.
    [getFitStatusType] returns it unchanged; the indicator, the border and
    the badge get one of the four fit colours, never the gray of an unknown
    status; and the status text is a translated label, never the raw
    status, whatever the measurement key. *)
Theorem statuses_recognized (userValue chartValue : number)
  (fabricType : string) (t : string -> string)
  (measurementKey : option string) :
  exists r,
    calculateFitStatus userValue chartValue fabricType = Some r /\
    let s := FitStatus.status r in
    getFitStatusType s = s /\
    In (getFitIndicatorColor s)
      ["bg-green-500"; "bg-blue-500"; "bg-yellow-500"; "bg-red-500"] /\
    In (getMeasurementBorderColor (capitalize s))
      [ "border-green-500 border-l-4"; "border-blue-500 border-l-4";
        "border-yellow-500 border-l-4"; "border-red-500 border-l-4" ] /\
    In (getStatusBadgeColor (capitalize s))
      [ "bg-green-100 text-green-700 border-green-200";
        "bg-blue-100 text-blue-700 border-blue-200";
        "bg-yellow-100 text-yellow-700 border-yellow-200";
        "bg-red-100 text-red-700 border-red-200" ] /\
    In (translateStatus (capitalize s) t measurementKey)
      (map t [ "recommendations.perfect"; "recommendations.good";
               "recommendations.loose"; "recommendations.tight";
               "recommendations.long"; "recommendations.short" ]) /\
    In (translateStatus s t None)
      (map t [ "recommendations.perfect"; "recommendations.good";
               "recommendations.loose"; "recommendations.tight" ]).
Proof.
  destruct (calculateFitStatus_total userValue chartValue fabricType)
    as [r [Hr [Hs _]]].
  exists r. split; [exact Hr|]. cbv zeta.
  unfold translateStatus at 1. cbv zeta.
  set (b := match measurementKey with Some _ => _ | None => _ end).
  clearbody b.
  unfold statuses in Hs. simpl in Hs.
  destruct Hs as [<-|[<-|[<-|[<-|[]]]]]; destruct b;
    repeat split; vm_compute; tauto.
Qed.

(** X11: the text of a tight or loose status is "short" or "long" only for
    the four length keys as the profile spells them.  A size-chart key
    written with an underscore, which the page normalizes for the lookup
    but passes to the card as it is, gets the same text as no key at all. *)
Theorem translateStatus_snake_key (status : string) (t : string -> string)
  (key : string) :
  includes key "_" = true ->
  translateStatus status t (Some key) = translateStatus status t None.
Proof.
  intros H. unfold translateStatus. cbv zeta.
  assert (E : existsb (String.eqb key)
                ["inseam"; "armLength"; "legLength"; "thighCircumference"]
              = false).
  { destruct (existsb _ _) eqn:E; [|reflexivity].
    apply existsb_exists in E. destruct E as [k [Hin Hk]].
    apply String.eqb_eq in Hk. subst k. simpl in Hin.
    destruct Hin as [<-|[<-|[<-|[<-|[]]]]]; discriminate H. }
  rewrite E, andb_false_r. reflexivity.
Qed.

Lemma translateStatus_snake_key_witness :
  includes "arm_length" "_" = true /\
  translateStatus "Tight" (fun k => k) (Some "arm_length")
  = translateStatus "Tight" (fun k => k) None.
Proof.
  split; [reflexivity|].
  exact (translateStatus_snake_key "Tight" (fun k => k) "arm_length" eq_refl).
Defined.

Lemma find_existsb {A : Type} (f : A -> bool) (l : list A) :
  existsb f l = match find f l with Some _ => true | None => false end.
Proof.
  induction l as [|x l IH]; [reflexivity|].
  simpl. destruct (f x); [reflexivity|exact IH].
Qed.

Lemma overlayFor_spec (type labelKey : string) (t : string -> string)
  (ds : list FitDetail.t) :
  match overlayFor type labelKey t (findDetail ds type) with
  | Some o =>
      existsb (fun d => FitDetail.key d =? type) ds = true /\
      Overlay.type o = type /\
      exists d, findDetail ds type = Some d /\
                FitDetail.key d = type /\
                Overlay.value o = FitDetail.userValue d /\
                Overlay.fitStatus o = getFitStatusType (FitDetail.status d)
  | None => existsb (fun d => FitDetail.key d =? type) ds = false
  end.
Proof.
  rewrite find_existsb. unfold findDetail.
  destruct (find _ ds) as [d|] eqn:E; cbn [overlayFor]; [|reflexivity].
  split; [reflexivity|]. split; [reflexivity|].
  exists d. split; [reflexivity|].
  apply find_some in E. destruct E as [_ E]. apply String.eqb_eq in E.
  repeat split. exact E.
Qed.

Lemma getFitStatusType_values (status : string) :
  In (getFitStatusType status) ["perfect"; "loose"; "tight"; "good"].
Proof.
  unfold getFitStatusType.
  destruct (status =? "perfect"); [simpl; tauto|].
  destruct (status =? "loose"); [simpl; tauto|].
  destruct (status =? "tight"); simpl; tauto.
Qed.

(** X12: the overlays of the avatar.  There is one overlay for each of
    chest, waist and hip that the details of the size hold, in that order
    and no other; each shows the body value and the status of the first
    detail with its key, and its fit status is one of perfect, loose, tight
    and good. *)
Theorem avatarOverlays_spec (ds : list FitDetail.t) (t : string -> string) :
  let overlays := avatarOverlays ds t in
  map Overlay.type overlays
  = filter (fun k => existsb (fun d => FitDetail.key d =? k) ds)
      ["chest"; "waist"; "hip"] /\
  Forall
    (fun o =>
       In (Overlay.fitStatus o) ["perfect"; "loose"; "tight"; "good"] /\
       exists d,
         findDetail ds (Overlay.type o) = Some d /\
         FitDetail.key d = Overlay.type o /\
         Overlay.value o = FitDetail.userValue d /\
         Overlay.fitStatus o = getFitStatusType (FitDetail.status d))
    overlays.
Proof.
  cbv zeta. unfold avatarOverlays. cbv zeta. cbn [filter].
  pose proof (overlayFor_spec "chest" "measurements.chest" t ds) as C.
  pose proof (overlayFor_spec "waist" "measurements.waist" t ds) as W.
  pose proof (overlayFor_spec "hip" "measurements.hip" t ds) as H.
  destruct (overlayFor "chest" _ t _) as [oc|];
    destruct (overlayFor "waist" _ t _) as [ow|];
    destruct (overlayFor "hip" _ t _) as [oh|];
    repeat match goal with
           | X : _ /\ _ |- _ => destruct X
           | X : exists _, _ |- _ => destruct X
           end;
    repeat match goal with
           | X : existsb _ ds = _ |- _ => rewrite X; clear X
           end;
    cbn [filterBoolean map]; split;
    try (repeat f_equal; assumption);
    repeat (apply Forall_cons;
            [split;
             [match goal with
              | E : Overlay.fitStatus ?o = _ |- In (Overlay.fitStatus ?o) _ =>
                  rewrite E; apply getFitStatusType_values
              end
             |match goal with
              | E : Overlay.type ?o = _ |- exists _, _ /\ _ = Overlay.type ?o /\ _ =>
                  rewrite E; eexists; repeat split; eassumption
              end]|]);
    apply Forall_nil.
Qed.

End Helpers.

(** ** The number field *)

Section NumberField.
Import JS NumberInput.
Local Open Scope string_scope.






















(** X15: the key filter.  A key that types one character is let through
    exactly when the character is a digit, or when Ctrl or Cmd is held and
    the character is one of a, c, v and x in either case; every other
    character is stopped. *)
Theorem onKeyDown_character (a : ascii) (ctrl meta : bool) :
  onKeyDown (makeKeyEvent (String a EmptyString) ctrl meta)
  = negb (isDigit a ||
          ((ctrl || meta) &&
           existsb (Ascii.eqb (lowerChar a)) ["a"; "c"; "v"; "x"]%char)).
Proof.
  unfold onKeyDown. cbn [ctrlKey metaKey key].
  assert (E : existsb (String.eqb (String a EmptyString)) allowedKeys = false).
  { unfold allowedKeys. cbn [existsb]. cbn [String.eqb].
    repeat match goal with
           | |- context [Ascii.eqb a ?c] => destruct (Ascii.eqb a c)
           end; reflexivity. }
  rewrite E. cbn [toLowerCase existsb String.eqb].
  repeat match goal with
         | |- context [Ascii.eqb (lowerChar a) ?c] =>
             destruct (Ascii.eqb (lowerChar a) c)
         end;
    destruct ctrl, meta, (isDigit a); reflexivity.
Qed.

End NumberField.

(** ** The range around a chart value *)

Section RangeBounds.
Import Binary64 JS Recommendations.
Local Open Scope string_scope.

(** X16: for a chart value that is not negative, the range of the range
    text contains the chart value: floor(c * 0.95) <= c <= ceil(c * 1.05),
    whatever the body value and the status of the detail. *)
Theorem range_contains_chartValue (c : Q) (key : string)
  (userValue : number) (status : string) :
  0 <= c ->
  let detail := FitDetail.make key userValue (Finite c) status in
  le (rangeMin detail) (FitDetail.chartValue detail) = true /\
  le (FitDetail.chartValue detail) (rangeMax detail) = true.
Proof.
  intros Hc. cbv zeta. unfold rangeMin, rangeMax. cbn [FitDetail.chartValue].
  pose proof (finite_nonneg c Hc) as V0. fold (real c) in V0.
  pose proof (real_double c) as VD.
  pose proof factor_95 as F95. pose proof factor_105 as F105.
  split.
  - destruct (mul_95 c) as [E R]. rewrite E. cbn [Math_floor le].
    apply Qle_bool_iff.
    set (lo := roundQ (real c * real (95 # 100))) in *.
    assert (A : lo <= real c).
    { rewrite <- VD. apply roundQ_le. rewrite F95. lra. }
    pose proof (real_le _ _ (Qfloor_le (real lo))) as B.
    pose proof (real_real lo) as RR. lra.
  - destruct (mul_105 c) as [[_ [E R]]|[_ E]]; rewrite E; cbn [Math_ceil le].
    + apply Qle_bool_iff.
      set (hi := roundQ (real c * real (105 # 100))) in *.
      assert (A : real c <= hi).
      { rewrite <- VD. apply roundQ_le. rewrite F105. lra. }
      pose proof (Qle_ceiling (real hi)) as B.
      assert (C : real c <= inject_Z (Qceiling (real hi))) by lra.
      apply real_le in C. pose proof (real_real c) as RR. lra.
    + apply negb_true_iff. apply Qltb_ge. exact V0.
Qed.

Lemma range_contains_chartValue_witness :
  0 <= 91 /\
  le (rangeMin (FitDetail.make "chest" (Finite 90) (Finite 91) "perfect"))
     (Finite 91) = true /\
  le (Finite 91)
     (rangeMax (FitDetail.make "chest" (Finite 90) (Finite 91) "perfect"))
  = true.
Proof.
  assert (H : 0 <= 91) by (unfold Qle; simpl; lia).
  split; [exact H|].
  exact (range_contains_chartValue 91 "chest" (Finite 90) "perfect" H).
Defined.

End RangeBounds.
